(** * generate_ui_report.py: frame splitting, index selection, report writing

    A shallow embedding of
    [skills/asciinema-terminal-recorder/scripts/generate_ui_report.py]
    and the properties its specification states about it.

    Python values are modelled as follows.
    - [int] is [Z] (unbounded).
    - [str] is a list of Unicode code points ([N]); [lit] turns a literal
      of 8-bit characters into such a list.
    - [float] is an IEEE binary64 number: a sign, an integer mantissa and
      a binary exponent.  [int / int] is the correctly rounded quotient
      and [round] rounds half to even, as CPython does.
    - [set] is [gset]; [sorted] is a merge sort on the elements.
    - A raised exception is the [Raise] case of [result].
    - A path is the list of its components; [pathlib] keeps a [".."]
      when it joins paths, and the operating system follows it when it
      opens the file. *)

From Stdlib Require Import ZArith NArith Lia.
From Stdlib Require Ascii String DecimalN DecimalPos DecimalFacts.
From stdpp Require Import base numbers option list strings gmap sets sorting.

Open Scope Z_scope.

(** ** Exceptions *)

Abbreviation char := N (only parsing).
Abbreviation str := (list N) (only parsing).

Inductive exn : Type :=
| ZeroDivisionError
| OverflowError
| IndexError
| FileNotFoundError (msg : str)
| FileExistsError
| IsADirectoryError
| NotADirectoryError.

Inductive result (A : Type) : Type :=
| Ok (a : A)
| Raise (e : exn).
Arguments Ok {A} a.
Arguments Raise {A} e.

#[global] Instance result_ret : MRet result := λ A a, Ok a.
#[global] Instance result_bind : MBind result := λ A B f m,
  match m with Ok a => f a | Raise e => Raise e end.
#[global] Instance result_fmap : FMap result := λ A B f m,
  match m with Ok a => Ok (f a) | Raise e => Raise e end.

(** ** Python [str] *)

Module Str.

Definition lit (s : string) : str :=
  (λ a, Ascii.N_of_ascii a) <$> String.list_ascii_of_string s.

Definition LF : char := 10%N.
Definition CR : char := 13%N.
Definition FF : char := 12%N.

(** [str.isspace] on one character: the characters [str.strip()]
    removes. *)
Definition isspace (c : char) : bool :=
  ((9 <=? c) && (c <=? 13) || (28 <=? c) && (c <=? 32)
   || (c =? 133) || (c =? 160) || (c =? 5760)
   || (8192 <=? c) && (c <=? 8202)
   || (c =? 8232) || (c =? 8233) || (c =? 8239) || (c =? 8287)
   || (c =? 12288))%N.

(** The line boundaries of [str.splitlines]. *)
Definition is_linebreak (c : char) : bool :=
  ((10 <=? c) && (c <=? 13) || (28 <=? c) && (c <=? 30)
   || (c =? 133) || (c =? 8232) || (c =? 8233))%N.

Fixpoint lstrip (p : char → bool) (s : str) : str :=
  match s with
  | [] => []
  | c :: s' => if p c then lstrip p s' else s
  end.

Definition rstrip (p : char → bool) (s : str) : str :=
  reverse (lstrip p (reverse s)).

(** [s.strip(chars)], the set of characters given as a predicate. *)
Definition strip (p : char → bool) (s : str) : str :=
  rstrip p (lstrip p s).

Fixpoint startswith (p s : str) : bool :=
  match p, s with
  | [], _ => true
  | _ :: _, [] => false
  | a :: p', b :: s' => (a =? b)%N && startswith p' s'
  end.

(** [sub in s] *)
Fixpoint contains (sub s : str) : bool :=
  startswith sub s ||
  match s with
  | [] => false
  | _ :: s' => contains sub s'
  end.

(** [s.find(sub)]: the lowest index where [sub] occurs. *)
Fixpoint find (sub s : str) : option nat :=
  if startswith sub s then Some 0%nat
  else match s with
       | [] => None
       | _ :: s' => S <$> find sub s'
       end.

(** [s.split(sep)] for a non-empty [sep]: cut at the leftmost
    occurrence, go on after it.  Every cut consumes at least one
    character, so [length s] rounds suffice. *)
Fixpoint split_fuel (fuel : nat) (sep s : str) : list str :=
  match fuel with
  | O => [s]
  | S n =>
    match find sep s with
    | None => [s]
    | Some i => take i s :: split_fuel n sep (drop (i + length sep) s)
    end
  end.

Definition split (sep s : str) : list str := split_fuel (length s) sep s.

(** [s.count(sub)]: occurrences counted from the left without overlap. *)
Fixpoint count_fuel (fuel : nat) (sub s : str) : nat :=
  match fuel with
  | O => O
  | S n =>
    match find sub s with
    | None => O
    | Some i => S (count_fuel n sub (drop (i + length sub) s))
    end
  end.

Definition count (sub s : str) : nat := count_fuel (length s) sub s.

(** Number of positions of [s] at which [sub] occurs. *)
Fixpoint occurrences (sub s : str) : nat :=
  ((if startswith sub s then 1 else 0)
   + match s with [] => 0 | _ :: s' => occurrences sub s' end)%nat.

(** [s.splitlines()]: a line ends at a line boundary, ["\r\n"] is one
    boundary, and no empty line follows a final boundary. *)
Fixpoint splitlines_go (cur : str) (s : str) : list str :=
  match s with
  | [] => match cur with [] => [] | _ => [reverse cur] end
  | c :: s' =>
    if is_linebreak c then
      reverse cur ::
      match s' with
      | d :: s'' =>
        if (c =? CR)%N && (d =? LF)%N then splitlines_go [] s''
        else splitlines_go [] s'
      | [] => splitlines_go [] s'
      end
    else splitlines_go (c :: cur) s'
  end.

Definition splitlines (s : str) : list str := splitlines_go [] s.

(** [sep.join(l)] *)
Fixpoint join (sep : str) (l : list str) : str :=
  match l with
  | [] => []
  | [x] => x
  | x :: l' => x ++ sep ++ join sep l'
  end.

(** Decimal digits of a non-negative number. *)
Fixpoint uint_digits (d : Decimal.uint) : str :=
  match d with
  | Decimal.Nil => []
  | Decimal.D0 d => 48%N :: uint_digits d
  | Decimal.D1 d => 49%N :: uint_digits d
  | Decimal.D2 d => 50%N :: uint_digits d
  | Decimal.D3 d => 51%N :: uint_digits d
  | Decimal.D4 d => 52%N :: uint_digits d
  | Decimal.D5 d => 53%N :: uint_digits d
  | Decimal.D6 d => 54%N :: uint_digits d
  | Decimal.D7 d => 55%N :: uint_digits d
  | Decimal.D8 d => 56%N :: uint_digits d
  | Decimal.D9 d => 57%N :: uint_digits d
  end.

Definition is_digit (c : char) : bool := ((48 <=? c) && (c <=? 57))%N.

(** The digits of [s] as a decimal numeral, if [s] has digits only. *)
Fixpoint digits_uint (s : str) : option Decimal.uint :=
  match s with
  | [] => Some Decimal.Nil
  | c :: s' =>
    d ← digits_uint s';
    match (c - 48)%N with
    | 0%N => if (c =? 48)%N then Some (Decimal.D0 d) else None
    | 1%N => Some (Decimal.D1 d)
    | 2%N => Some (Decimal.D2 d)
    | 3%N => Some (Decimal.D3 d)
    | 4%N => Some (Decimal.D4 d)
    | 5%N => Some (Decimal.D5 d)
    | 6%N => Some (Decimal.D6 d)
    | 7%N => Some (Decimal.D7 d)
    | 8%N => Some (Decimal.D8 d)
    | 9%N => Some (Decimal.D9 d)
    | _ => None
    end
  end.

(** The number a string of digits stands for. *)
Definition decimal_value (s : str) : option Z :=
  (λ d, Z.of_N (N.of_uint d)) <$> digits_uint s.

(** [format(n, "0{width}d")]: sign, then the digits padded with zeros
    on the left up to [width] characters in all; [width = 0] is
    [str(n)]. *)
Definition format_d (width : nat) (n : Z) : str :=
  let digits := uint_digits (N.to_uint (Z.abs_N n)) in
  let sign := if n <? 0 then [45%N] else [] in
  sign ++ replicate (width - length sign - length digits) 48%N ++ digits.

End Str.

(** ** Python [float] and the two operations the script uses *)

Module Float.

Record float : Type := mkFloat { fneg : bool; fman : Z; fexp : Z }.

(** The integer nearest to [a / b] for [0 ≤ a] and [0 < b], a tie going
    to the even neighbour. *)
Definition round_half_even (a b : Z) : Z :=
  let q := a / b in
  let r := a mod b in
  if 2 * r <? b then q
  else if b <? 2 * r then q + 1
  else if Z.even q then q else q + 1.

(** [a < b * 2^d] for an exponent of either sign. *)
Definition scaled_lt (a b d : Z) : bool :=
  a * 2 ^ Z.max 0 (- d) <? b * 2 ^ Z.max 0 d.

(** floor of log2 of [a / b], for positive [a] and [b]. *)
Definition ilog2_quot (a b : Z) : Z :=
  let d := Z.log2 a - Z.log2 b in
  if scaled_lt a b d then d - 1 else d.

(** The integer nearest to [a / (b * 2^e)], ties to even. *)
Definition quot_round (a b e : Z) : Z :=
  round_half_even (a * 2 ^ Z.max 0 (- e)) (b * 2 ^ Z.max 0 e).

(** [a / b] on two [int]s: the binary64 number nearest to the exact
    quotient (53 bits of mantissa, exponent at least -1074), ties to
    even; [OverflowError] when that number is not finite. *)
Definition true_divide (a b : Z) : result float :=
  if b =? 0 then Raise ZeroDivisionError
  else
    let neg := xorb (a <? 0) (b <? 0) in
    if a =? 0 then Ok (mkFloat neg 0 0)
    else
      let e := Z.max (ilog2_quot (Z.abs a) (Z.abs b) - 52) (-1074) in
      let m := quot_round (Z.abs a) (Z.abs b) e in
      if (0 <=? e) && (2 ^ 1024 <=? m * 2 ^ e) then Raise OverflowError
      else Ok (mkFloat neg m e).

(** [round(x)] with one argument: the nearest [int], ties to even. *)
Definition round (x : float) : Z :=
  let mag :=
    if 0 <=? fexp x then fman x * 2 ^ fexp x
    else round_half_even (fman x) (2 ^ (- fexp x)) in
  if fneg x then - mag else mag.

End Float.

(** ** The script: pure functions *)

Import Str Float.

Definition FRAME_MARKER : str := Eval cbv in lit "---FRAME---".
Definition FRAME_SEPARATOR : str := Eval cbv in LF :: lit "---FRAME---" ++ [LF].

Definition is_newline (c : char) : bool := (c =? LF)%N.

(** [split_frames(raw_text)] *)
Definition split_frames (raw_text : str) : list str :=
  if contains FRAME_MARKER raw_text
  then strip is_newline <$> split FRAME_SEPARATOR raw_text
  else [strip is_newline raw_text].

(** The pieces of the text before newlines are stripped. *)
Definition raw_pieces (raw_text : str) : list (list N) :=
  if contains FRAME_MARKER raw_text then split FRAME_SEPARATOR raw_text
  else [raw_text].

(** [range(n)] as a list *)
Definition range (n : Z) : list Z := seqZ 0 n.

(** [sorted(s)] for a set of [int]s.  The order in which the set hands
    out its elements is a parameter [iter]. *)
Definition sorted_with (iter : gset Z → list Z) (s : gset Z) : list Z :=
  merge_sort Z.le (iter s).

(** [pick_indices(total, max_captures)], for a given iteration order of
    the set [picks]. *)
Definition pick_indices_with (iter : gset Z → list Z)
    (total max_captures : Z) : result (list Z) :=
  if total <=? 0 then Ok []
  else if (max_captures <=? 1) || (total =? 1) then Ok [0]
  else if total <=? max_captures then Ok (range total)
  else
    picks ← list_to_set <$>
      mapM (λ i, round <$> true_divide (i * (total - 1)) (max_captures - 1))
           (range max_captures);
    Ok (sorted_with iter picks).

Definition pick_indices : Z → Z → result (list Z) :=
  pick_indices_with elements.

Definition PLACEHOLDER : str :=
  Eval cbv in lit "(No non-empty terminal output captured)".

(** Truth value of [f.strip()]. *)
Definition nonblank (f : str) : bool :=
  match strip isspace f with [] => false | _ => true end.

(** The raw frames that pass the blank filter. *)
Definition kept_frames (raw_text : str) : list (list N) :=
  filter (λ f, nonblank f = true) (split_frames raw_text).

(** The frames after the placeholder is put in for an empty list. *)
Definition select_frames (raw_text : str) : list str :=
  let frames := kept_frames raw_text in
  match frames with
  | [] => [PLACEHOLDER]
  | _ => frames
  end.

(** [frame_text.splitlines()[: max(1, lines_per_capture)]] joined. *)
Definition preview_of (lines_per_capture : Z) (frame_text : str) : str :=
  join [LF] (take (Z.to_nat (Z.max 1 lines_per_capture)) (splitlines frame_text)).

(** ** The environment: paths, files, clock *)

(** A resolved path is the list of its components below the root. *)
Abbreviation path := (list (list N)) (only parsing).

Module Path.

Definition SLASH : char := 47%N.

(** The component [".."], which [pathlib] keeps when it joins paths. *)
Definition DOTDOT : str := [46%N; 46%N].

(** [str(p)] *)
Definition to_str (p : path) : str := SLASH :: join [SLASH] p.

(** The text between the slashes of [s], [cur] being the segment read
    so far, last character first. *)
Fixpoint segments (cur : str) (s : str) : list (list N) :=
  match s with
  | [] => [reverse cur]
  | c :: s' =>
    if (c =? SLASH)%N then reverse cur :: segments [] s'
    else segments (c :: cur) s'
  end.

(** The components of a path given as text: empty and ["."] segments
    are dropped. *)
Definition parts (s : str) : list (list N) :=
  filter (λ c, c ≠ [] ∧ c ≠ [46%N]) (segments [] s).

(** [d / s]: an absolute [s] replaces [d]. *)
Definition joinpath (d : path) (s : str) : path :=
  if startswith [SLASH] s then parts s else d ++ parts s.

Definition parent (p : path) : path := take (length p - 1) p.

End Path.

Record datetime : Type := mkDatetime {
  year : Z; month : Z; day : Z;
  hour : Z; minute : Z; second : Z; microsecond : Z
}.

(** [now.strftime("%Y%m%dT%H%M%SZ")] *)
Definition strftime_compact (now : datetime) : str :=
  format_d 4 (year now) ++ format_d 2 (month now) ++ format_d 2 (day now)
  ++ lit "T" ++ format_d 2 (hour now) ++ format_d 2 (minute now)
  ++ format_d 2 (second now) ++ lit "Z".

(** [now.isoformat()] for a time in UTC. *)
Definition isoformat (now : datetime) : str :=
  format_d 4 (year now) ++ lit "-" ++ format_d 2 (month now) ++ lit "-"
  ++ format_d 2 (day now) ++ lit "T" ++ format_d 2 (hour now) ++ lit ":"
  ++ format_d 2 (minute now) ++ lit ":" ++ format_d 2 (second now)
  ++ (if microsecond now =? 0 then []
      else lit "." ++ format_d 6 (microsecond now))
  ++ lit "+00:00".

(** The world the process runs in.  A file holds text (the code points
    its bytes decode to); the file system has plain files and
    directories only, the root always being a directory. *)
Record World : Type := mkWorld {
  files : gmap (list (list N)) (list N);
  dirs : gset (list (list N));
  clock : datetime;
  stdout : list (list N);
  stderr : list (list N)
}.

Definition is_file (w : World) (p : path) : bool :=
  bool_decide (is_Some (files w !! p)).
Definition is_dir (w : World) (p : path) : bool :=
  bool_decide (p = [] ∨ p ∈ dirs w).

Definition add_dir (p : path) (w : World) : World :=
  mkWorld (files w) ({[p]} ∪ dirs w) (clock w) (stdout w) (stderr w).
Definition put_file (p : path) (text : str) (w : World) : World :=
  mkWorld (<[p := text]> (files w)) (dirs w) (clock w) (stdout w) (stderr w).
Definition put_stdout (line : str) (w : World) : World :=
  mkWorld (files w) (dirs w) (clock w) (stdout w ++ [line]) (stderr w).
Definition put_stderr (line : str) (w : World) : World :=
  mkWorld (files w) (dirs w) (clock w) (stdout w) (stderr w ++ [line]).

(** Computations that read and change the world and may raise; what was
    done before an exception stays done. *)
Definition M (A : Type) : Type := World → result A * World.

#[global] Instance M_ret : MRet M := λ A a w, (Ok a, w).
#[global] Instance M_bind : MBind M := λ A B f m w,
  match m w with
  | (Ok a, w') => f a w'
  | (Raise e, w') => (Raise e, w')
  end.

Definition raise {A} (e : exn) : M A := λ w, (Raise e, w).
Definition lift {A} (r : result A) : M A := λ w, (r, w).

Module OS.

(** Text mode with universal newlines: ["\r\n"] and ["\r"] read as
    ["\n"]. *)
Fixpoint universal_newlines (s : str) : str :=
  match s with
  | [] => []
  | c :: s' =>
    if (c =? CR)%N then
      LF :: match s' with
            | d :: s'' =>
              if (d =? LF)%N then universal_newlines s''
              else universal_newlines s'
            | [] => []
            end
    else c :: universal_newlines s'
  end.

(** The text of the error for a missing file or directory. *)
Definition no_such_file (p : path) : str :=
  lit "[Errno 2] No such file or directory: '" ++ Path.to_str p ++ lit "'".

(** [p.exists()] *)
Definition path_exists (p : path) : M bool :=
  λ w, (Ok (is_file w p || is_dir w p), w).

(** [p.mkdir(parents=True, exist_ok=True)], [p] being [base] followed
    by [comps]: the missing directories are made from the top down. *)
Fixpoint mkdir_from (base : path) (comps : list (list N)) : M unit :=
  match comps with
  | [] => mret ()
  | c :: cs =>
    λ w,
      let q := base ++ [c] in
      if is_file w q then
        (Raise (match cs with [] => FileExistsError | _ => NotADirectoryError end), w)
      else mkdir_from q cs (if is_dir w q then w else add_dir q w)
  end.

Definition mkdir_parents (p : path) : M unit := mkdir_from [] p.

(** [p.read_text(encoding="utf-8")] *)
Definition read_text (p : path) : M (list N) :=
  λ w,
    if is_dir w p then (Raise IsADirectoryError, w)
    else match files w !! p with
         | Some text => (Ok (universal_newlines text), w)
         | None => (Raise (FileNotFoundError (no_such_file p)), w)
         end.

(** The place the operating system comes to when it opens a path made
    of [comps], seen from the directory [cur]: [".."] leads to the
    directory above (the root is above itself), and a component that
    another one follows has to be a directory.  [shown] is the path as
    the error message prints it. *)
Fixpoint locate_from (shown cur : path) (comps : list (list N)) (w : World)
    : result (list (list N)) :=
  match comps with
  | [] => Ok cur
  | c :: cs =>
    if bool_decide (c = Path.DOTDOT) then
      locate_from shown (Path.parent cur) cs w
    else
      match cs with
      | [] => Ok (cur ++ [c])
      | _ :: _ =>
        if is_dir w (cur ++ [c]) then locate_from shown (cur ++ [c]) cs w
        else if is_file w (cur ++ [c]) then Raise NotADirectoryError
        else Raise (FileNotFoundError (no_such_file shown))
      end
  end.

Definition locate (p : path) (w : World) : result (list (list N)) :=
  locate_from p [] p w.

(** [p.write_text(text, encoding="utf-8")] where the line separator of
    the platform is ["\n"]: the file is made, or replaced, at the place
    the path leads to. *)
Definition write_text (p : path) (text : str) : M unit :=
  λ w,
    match locate p w with
    | Raise e => (Raise e, w)
    | Ok q =>
      if is_dir w q then (Raise IsADirectoryError, w)
      else (Ok (), put_file q text w)
    end.

(** [datetime.now(timezone.utc)] *)
Definition datetime_now : M datetime := λ w, (Ok (clock w), w).

(** [print(s)] *)
Definition print (s : str) : M unit := λ w, (Ok (), put_stdout s w).

End OS.

(** ** The script: [main] *)

(** What [parse_args] returns. *)
Record Namespace : Type := mkNamespace {
  input_file : list N;
  output_dir : list N;
  prefix : list N;
  max_captures : Z;
  lines_per_capture : Z
}.

(** [l[i]] on a list, with Python's negative indices. *)
Definition getitem {A} (l : list A) (i : Z) : result A :=
  let n := Z.of_nat (length l) in
  let j := if i <? 0 then i + n else i in
  if (j <? 0) || (n <=? j) then Raise IndexError
  else match l !! Z.to_nat j with
       | Some x => Ok x
       | None => Raise IndexError
       end.

(** One element of [capture_entries]. *)
Record capture_entry : Type := mkEntry {
  entry_idx : Z;
  entry_path : list (list N);
  entry_preview : list N
}.

(** The name of a capture file. *)
Definition capture_name (prefix timestamp : str) (capture_no frame_idx : Z) : str :=
  prefix ++ lit "-" ++ timestamp ++ lit "-capture-" ++ format_d 2 capture_no
  ++ lit "-frame-" ++ format_d 4 frame_idx ++ lit ".txt".

Definition report_name (prefix timestamp : str) : str :=
  prefix ++ lit "-" ++ timestamp ++ lit ".md".

(** The lines one capture adds to the report. *)
Definition entry_lines (e : capture_entry) : list (list N) :=
  [ lit "### Frame " ++ format_d 0 (entry_idx e);
    lit "- Capture file: `" ++ Path.to_str (entry_path e) ++ lit "`";
    [];
    lit "```text";
    entry_preview e;
    lit "```";
    [] ].

Definition report_lines (generated_at : str) (input_path : path)
    (frames : list (list N)) (capture_entries : list capture_entry)
    : list (list N) :=
  [ lit "# Terminal UI Test Report";
    [];
    lit "- Generated at (UTC): `" ++ generated_at ++ lit "`";
    lit "- Source input: `" ++ Path.to_str input_path ++ lit "`";
    lit "- Total frames detected: `" ++ format_d 0 (Z.of_nat (length frames)) ++ lit "`";
    lit "- Captures included: `" ++ format_d 0 (Z.of_nat (length capture_entries)) ++ lit "`";
    [];
    lit "## Screen Captures";
    [] ]
  ++ concat (entry_lines <$> capture_entries).

Section Script.

(** [Path(s).resolve()]: the absolute path the operating system gives
    for [s] in the working directory of the process. *)
Variable resolve : list N → list (list N).

(** The loop over [enumerate(indices, start=1)], from [capture_no] on. *)
Fixpoint capture_loop (args : Namespace) (out : path) (timestamp : str)
    (frames : list (list N)) (capture_no : Z) (indices : list Z)
    (capture_entries : list capture_entry) : M (list capture_entry) :=
  match indices with
  | [] => mret capture_entries
  | frame_idx :: rest =>
    frame_text ← lift (getitem frames frame_idx);
    let capture_path :=
      Path.joinpath out
        (capture_name (prefix args) timestamp capture_no frame_idx) in
    _ ← OS.write_text capture_path (frame_text ++ [LF]);
    let preview := preview_of (lines_per_capture args) frame_text in
    capture_loop args out timestamp frames (capture_no + 1) rest
      (capture_entries ++ [mkEntry frame_idx capture_path preview])
  end.

Definition main (args : Namespace) : M Z :=
  let input_path := resolve (input_file args) in
  found ← OS.path_exists input_path;
  if negb found then
    raise (FileNotFoundError
             (lit "Input file not found: " ++ Path.to_str input_path))
  else
    let out := resolve (output_dir args) in
    _ ← OS.mkdir_parents out;
    now ← OS.datetime_now;
    let timestamp := strftime_compact now in
    let generated_at := isoformat now in
    raw_text ← OS.read_text input_path;
    let frames := select_frames raw_text in
    indices ← lift (pick_indices (Z.of_nat (length frames))
                                 (Z.max 1 (max_captures args)));
    let report_path :=
      Path.joinpath out (report_name (prefix args) timestamp) in
    capture_entries ← capture_loop args out timestamp frames 1 indices [];
    let lines := report_lines generated_at input_path frames capture_entries in
    _ ← OS.write_text report_path (join [LF] lines);
    _ ← OS.print (Path.to_str report_path);
    mret 0.

(** What the interpreter prints last for an uncaught exception. *)
Definition exn_line (e : exn) : str :=
  match e with
  | ZeroDivisionError => lit "ZeroDivisionError: division by zero"
  | OverflowError =>
    lit "OverflowError: integer division result too large for a float"
  | IndexError => lit "IndexError: list index out of range"
  | FileNotFoundError msg => lit "FileNotFoundError: " ++ msg
  | FileExistsError => lit "FileExistsError"
  | IsADirectoryError => lit "IsADirectoryError"
  | NotADirectoryError => lit "NotADirectoryError"
  end.

(** [raise SystemExit(main())]: the exit status and the world left
    behind. *)
Definition script (args : Namespace) (w : World) : Z * World :=
  match main args w with
  | (Ok status, w') => (status, w')
  | (Raise e, w') => (1, put_stderr (exn_line e) w')
  end.

End Script.

(** ** Properties named by the specification *)

(** What the specification asks of a selection of frame indices. *)
Definition selection_ok (total max_captures : Z) (l : list Z) : Prop :=
  StronglySorted Z.lt l
  ∧ Forall (λ i, 0 ≤ i < total) l
  ∧ Z.of_nat (length l) ≤ max_captures
  ∧ head l = Some 0
  ∧ last l = Some (total - 1).

(** [s] shows [n] in decimal in exactly [width] characters, with zeros
    in front where [n] has fewer digits. *)
Definition fixed_width_decimal (width : nat) (n : Z) (s : str) : Prop :=
  decimal_value s = Some n ∧ length s = width.

(** [s] shows [n] in decimal with zeros in front up to [width]
    characters; a longer numeral is not padded. *)
Definition padded_decimal (width : nat) (n : Z) (s : str) : Prop :=
  decimal_value s = Some n
  ∧ (width ≤ length s)%nat
  ∧ ((width < length s)%nat → head s ≠ Some 48%N).

(** No newline at either end. *)
Definition newline_stripped (f : str) : Prop :=
  head f ≠ Some LF ∧ last f ≠ Some LF.

(** One more frame than positions at which the separator occurs, each
    frame free of newlines at its ends. *)
Definition frames_per_occurrence (raw_text : str) : Prop :=
  length (split_frames raw_text) = S (occurrences FRAME_SEPARATOR raw_text)
  ∧ Forall newline_stripped (split_frames raw_text).

(** No slash in a piece of a file name. *)
Definition slash_free (s : str) : Prop := Forall (λ c, c ≠ Path.SLASH) s.

(** What follows the prefix in the name of a capture file, and in the
    name of the report. *)
Definition capture_suffix (timestamp : str) (capture_no frame_idx : Z) : str :=
  lit "-" ++ timestamp ++ lit "-capture-" ++ format_d 2 capture_no
  ++ lit "-frame-" ++ format_d 4 frame_idx ++ lit ".txt".

Definition report_suffix (timestamp : str) : str :=
  lit "-" ++ timestamp ++ lit ".md".

(** The path of the capture file with a given number and frame index. *)
Definition capture_path (args : Namespace) (out : list (list N))
    (timestamp : str) (capture_no frame_idx : Z) : list (list N) :=
  Path.joinpath out (capture_name (prefix args) timestamp capture_no frame_idx).

(** Opening the path [p] in [w] leads to a file that holds [text]; a
    path without [".."] leads to itself. *)
Definition file_at (w : World) (p : list (list N)) (text : str) : Prop :=
  ∃ q, OS.locate p w = Ok q ∧ files w !! q = Some text
       ∧ (Path.DOTDOT ∉ p → q = p).

(** A world in which the report can be written: the input is a file
    with at most [2^53] frames, nothing on the way to the output
    directory is a file, the resolved output directory holds no [".."],
    the prefix holds no slash, and the output directory has no
    directory whose name starts with the prefix, a dash and the time
    stamp. *)
Definition can_report (resolve : list N → list (list N)) (args : Namespace)
    (w : World) : Prop :=
  let input_path := resolve (input_file args) in
  let out := resolve (output_dir args) in
  (∃ text, files w !! input_path = Some text
           ∧ Z.of_nat (length (select_frames (OS.universal_newlines text)))
             ≤ 2 ^ 53)
  ∧ is_dir w input_path = false
  ∧ (∀ k, is_file w (take k out) = false)
  ∧ (Path.DOTDOT ∉ out)
  ∧ (∀ suffix,
       is_dir w (out ++ [prefix args ++ lit "-" ++ strftime_compact (clock w)
                         ++ suffix]) = false)
  ∧ slash_free (prefix args).

(** What is said of the capture files of a run from [w] to [w']: the
    selected indices go up, and the capture numbered [j + 1] holds the
    text of the frame at its index and a newline, under a name built
    from the prefix, the time stamp and two numerals for which [field]
    holds. *)
Definition capture_claim (field : nat → Z → list N → Prop)
    (resolve : list N → list (list N)) (args : Namespace) (w w' : World)
    : Prop :=
  ∃ text indices,
    let frames := select_frames (OS.universal_newlines text) in
    let timestamp := strftime_compact (clock w) in
    files w !! resolve (input_file args) = Some text
    ∧ pick_indices (Z.of_nat (length frames)) (Z.max 1 (max_captures args))
      = Ok indices
    ∧ StronglySorted Z.lt indices
    ∧ ∀ j idx, indices !! j = Some idx →
        ∃ frame_text NN FFFF,
          0 ≤ idx
          ∧ frames !! Z.to_nat idx = Some frame_text
          ∧ field 2%nat (1 + Z.of_nat j) NN
          ∧ field 4%nat idx FFFF
          ∧ file_at w'
              (Path.joinpath (resolve (output_dir args))
                 (prefix args ++ lit "-" ++ timestamp
                  ++ lit "-capture-" ++ NN ++ lit "-frame-" ++ FFFF
                  ++ lit ".txt"))
              (frame_text ++ [LF]).

(** A frame whose stripped content is empty: it holds whitespace only. *)
Definition blank (f : str) : Prop := Forall (λ c, isspace c = true) f.

(** [kept] is what is left of [frames] when the blank frames, and
    nothing else, are taken out. *)
Inductive drops_blank : list (list N) → list (list N) → Prop :=
| drops_blank_nil : drops_blank [] []
| drops_blank_skip (f : list N) (frames kept : list (list N)) :
    blank f → drops_blank frames kept → drops_blank (f :: frames) kept
| drops_blank_keep (f : list N) (frames kept : list (list N)) :
    ¬ blank f → drops_blank frames kept →
    drops_blank (f :: frames) (f :: kept).

(** No line boundary in a line. *)
Definition boundary_free (l : str) : Prop :=
  Forall (λ c, is_linebreak c = false) l.

(** [ls] are the lines of [s]: [s] is its lines, each followed by a
    line boundary and the last one possibly by none; ["\r\n"] is one
    boundary; no line holds a line boundary. *)
Inductive lines_of : list N → list (list N) → Prop :=
| lines_of_nil : lines_of [] []
| lines_of_last (l : list N) :
    l ≠ [] → boundary_free l → lines_of l [l]
| lines_of_crlf (l rest : list N) (ls : list (list N)) :
    boundary_free l → lines_of rest ls →
    lines_of (l ++ [CR; LF] ++ rest) (l :: ls)
| lines_of_break (l rest : list N) (c : N) (ls : list (list N)) :
    boundary_free l → is_linebreak c = true →
    ¬ (c = CR ∧ head rest = Some LF) → lines_of rest ls →
    lines_of (l ++ c :: rest) (l :: ls).

(** The first [k] lines of [s], joined by newlines. *)
Definition first_lines (k : Z) (s preview : str) : Prop :=
  ∃ ls, lines_of s ls ∧ preview = join [LF] (take (Z.to_nat k) ls).

(** ** Sample worlds *)

(** Name resolution in a process that runs in the root directory, for
    names without links and without [".."]. *)
Definition root_resolve (s : str) : list (list N) := Path.parts s.

(** A world with one input file and nothing else. *)
Definition one_file_world (name text : str) : World :=
  mkWorld {[ [name] := text ]} ∅ (mkDatetime 2026 11 4 1 2 3 0) [] [].

Definition sample_args (max_captures : Z) : Namespace :=
  mkNamespace (lit "in.txt") (lit "out") (lit "ui-report") max_captures 40.

(** An input of three frames, the second of three lines. *)
Definition three_frames : str :=
  Eval cbv in
    lit "AAA" ++ FRAME_SEPARATOR
    ++ lit "BBB" ++ [LF] ++ lit "bb2" ++ [LF] ++ lit "bb3" ++ FRAME_SEPARATOR
    ++ lit "CCC" ++ [LF].

(** Arguments that ask for previews of two lines. *)
Definition two_line_args : Namespace :=
  mkNamespace (lit "in.txt") (lit "out") (lit "ui-report") 5 2.

(** Arguments with a prefix that leads out of the output directory. *)
Definition up_args : Namespace :=
  mkNamespace (lit "in.txt") (lit "out") (lit "../x") 5 40.

(** An input of 100 one-letter frames. *)
Definition hundred_frames : str :=
  join FRAME_SEPARATOR (replicate 100 (lit "x")).

(** * Proofs *)

(** ** Rounding and division *)

Section RoundHalfEven.

Lemma round_half_even_spec (a b : Z) :
  0 < b →
  let p := round_half_even a b in
  2 * a - b ≤ 2 * p * b ≤ 2 * a + b
  ∧ (2 * p * b = 2 * a + b → Z.even p = true)
  ∧ (2 * p * b = 2 * a - b → Z.even p = true).
Proof.
  intros Hb. unfold round_half_even.
  pose proof (Z.div_mod a b ltac:(lia)) as Hdiv.
  pose proof (Z.mod_pos_bound a b Hb) as Hmod.
  set (q := a / b) in *. set (r := a mod b) in *.
  destruct (Z.ltb_spec (2 * r) b) as [H1|H1]; cbn zeta.
  { repeat split; nia. }
  destruct (Z.ltb_spec b (2 * r)) as [H2|H2].
  { repeat split; nia. }
  destruct (Z.even q) eqn:Hq.
  { repeat split; try nia. auto. }
  assert (Z.even (q + 1) = true) as Hq1.
  { rewrite Z.even_add, Hq. reflexivity. }
  repeat split; try nia; auto.
Qed.

Lemma round_half_even_mono (a b c d : Z) :
  0 < b → 0 < d → a * d ≤ c * b →
  round_half_even a b ≤ round_half_even c d.
Proof.
  intros Hb Hd Hle.
  destruct (round_half_even_spec a b Hb) as ([_ Hp] & Hpe & _).
  destruct (round_half_even_spec c d Hd) as ([Hq _] & _ & Hqe).
  set (p := round_half_even a b) in *. set (q := round_half_even c d) in *.
  destruct (Z_le_gt_dec p q) as [|Hgt]; [done|exfalso].
  assert (2 * p * b * d ≤ (2 * a + b) * d) as F1
    by (apply Z.mul_le_mono_nonneg_r; lia).
  assert ((2 * c - d) * b ≤ 2 * q * d * b) as F2
    by (apply Z.mul_le_mono_nonneg_r; lia).
  assert (0 < b * d) as Hbd by lia.
  assert ((p - q - 1) * (b * d) ≤ 0) as F3 by lia.
  assert (p = q + 1) as Hpq by nia.
  assert (2 * p * b = 2 * a + b) as E1.
  { subst p. apply Z.le_antisymm; [lia|].
    apply Z.mul_le_mono_pos_r with d; [lia|].
    rewrite Hpq in *. lia. }
  assert (2 * q * d = 2 * c - d) as E2.
  { apply Z.le_antisymm; [|lia].
    apply Z.mul_le_mono_pos_r with b; [lia|].
    rewrite Hpq in *. lia. }
  specialize (Hpe E1). specialize (Hqe E2).
  rewrite Hpq, Z.even_add, Hqe in Hpe. discriminate.
Qed.

Lemma round_half_even_exact (k b : Z) :
  0 < b → round_half_even (k * b) b = k.
Proof.
  intros Hb. unfold round_half_even.
  rewrite Z.div_mul, Z.mod_mul by lia.
  destruct (Z.ltb_spec (2 * 0) b); [done|lia].
Qed.

End RoundHalfEven.

Section TrueDivide.

(** The quotient of numbers below [2^53] times the divisor has its
    leading bit below position 53. *)
Lemma ilog2_quot_small (a b : Z) :
  0 < a → 0 < b → a < 2 ^ 53 * b → ilog2_quot a b ≤ 52.
Proof.
  intros Ha Hb Hlt. unfold ilog2_quot, scaled_lt.
  set (d := Z.log2 a - Z.log2 b).
  destruct (Z_le_gt_dec d 52) as [Hd|Hd].
  { destruct (_ <? _); lia. }
  pose proof (Z.log2_spec a Ha) as [Hla _].
  pose proof (Z.log2_spec b Hb) as [_ Hlb].
  pose proof (Z.log2_nonneg b) as Hnb.
  assert (Z.log2 a = Z.log2 b + 1 + (d - 1)) as Ea by lia.
  rewrite Ea, Z.pow_add_r in Hla by lia.
  assert (2 ^ 53 ≤ 2 ^ (d - 1) ∨ d = 53) as [Hbig|Hd53].
  { destruct (Z.eq_dec d 53); [by right|left].
    apply Z.pow_le_mono_r; lia. }
  - exfalso.
    assert (b * 2 ^ 53 < 2 ^ (Z.log2 b + 1) * 2 ^ (d - 1)); [|lia].
    apply Z.le_lt_trans with (b * 2 ^ (d - 1)).
    + apply Z.mul_le_mono_nonneg_l; lia.
    + apply Z.mul_lt_mono_pos_r; [|lia]. apply Z.pow_pos_nonneg; lia.
  - rewrite (Z.max_l 0 (- d)), (Z.max_r 0 d) by lia. rewrite Hd53.
    destruct (Z.ltb_spec (a * 2 ^ 0) (b * 2 ^ 53)); lia.
Qed.

(** Sampling a position at most [N < 2^53]: the division does not
    raise and the rounded quotient stays within [0, N]; it is exact
    at both ends. *)
Lemma sample_within (a b N : Z) :
  0 < b → 0 ≤ a ≤ N * b → N < 2 ^ 53 →
  ∃ x, true_divide a b = Ok x ∧ 0 ≤ round x ≤ N
       ∧ (a = 0 → round x = 0) ∧ (a = N * b → round x = N).
Proof.
  intros Hb Ha HN. unfold true_divide.
  destruct (Z.eqb_spec b 0) as [|_]; [lia|].
  replace (b <? 0) with false by (symmetry; apply Z.ltb_ge; lia).
  replace (a <? 0) with false by (symmetry; apply Z.ltb_ge; lia).
  cbn [xorb].
  destruct (Z.eqb_spec a 0) as [Ha0|Ha0].
  { eexists; split; [done|]. cbn. nia. }
  rewrite (Z.abs_eq a), (Z.abs_eq b) by lia.
  assert (ilog2_quot a b ≤ 52) as Hl by (apply ilog2_quot_small; nia).
  set (e := Z.max (ilog2_quot a b - 52) (-1074)).
  assert (-1074 ≤ e ≤ 0) as He by lia.
  unfold quot_round. rewrite (Z.max_r 0 (- e)), (Z.max_l 0 e) by lia.
  rewrite Z.pow_0_r, Z.mul_1_r.
  set (k := - e). assert (0 ≤ k) as Hk by lia.
  assert (0 < 2 ^ k) as Hpk by (apply Z.pow_pos_nonneg; lia).
  set (m := round_half_even (a * 2 ^ k) b).
  assert (0 ≤ m ≤ N * 2 ^ k) as Hm.
  { split.
    - rewrite <- (round_half_even_exact 0 b Hb).
      apply round_half_even_mono; nia.
    - rewrite <- (round_half_even_exact (N * 2 ^ k) b Hb).
      apply round_half_even_mono; nia. }
  assert (a = N * b → m = N * 2 ^ k) as Hmx.
  { intros ->. unfold m.
    replace (N * b * 2 ^ k) with (N * 2 ^ k * b) by lia.
    by apply round_half_even_exact. }
  destruct (Z.eq_dec e 0) as [He0|He0].
  - assert (2 ^ k = 1) as Hk1 by (replace k with 0 by lia; done).
    rewrite Hk1 in Hm, Hmx.
    rewrite He0. cbn [Z.leb Z.compare andb]. rewrite Z.pow_0_r, Z.mul_1_r.
    assert (2 ^ 53 < 2 ^ 1024) by (apply Z.pow_lt_mono_r; lia).
    destruct (Z.leb_spec (2 ^ 1024) m); [lia|].
    eexists; split; [done|]. unfold round; cbn [fexp fman fneg].
    cbn [Z.leb Z.compare]. rewrite Z.pow_0_r, Z.mul_1_r.
    repeat split; lia.
  - replace (0 <=? e) with false by (symmetry; apply Z.leb_gt; lia).
    cbn [andb]. eexists; split; [done|].
    unfold round; cbn [fexp fman fneg].
    replace (0 <=? e) with false by (symmetry; apply Z.leb_gt; lia).
    fold k. split; [split|split].
    + rewrite <- (round_half_even_exact 0 (2 ^ k) Hpk).
      apply round_half_even_mono; nia.
    + rewrite <- (round_half_even_exact N (2 ^ k) Hpk).
      apply round_half_even_mono; nia.
    + lia.
    + intros HaN. rewrite (Hmx HaN). by apply round_half_even_exact.
Qed.

End TrueDivide.

Section ResultMonad.

Lemma mapM_result_ok {A B} (f : A → result B) (P : A → B → Prop) (l : list A) :
  Forall (λ x, ∃ y, f x = Ok y ∧ P x y) l →
  ∃ k, mapM f l = Ok k ∧ Forall2 P l k.
Proof.
  induction 1 as [|x l (y & Hy & HP) _ (k & Hk & IH)]; cbn.
  - by exists [].
  - exists (y :: k). rewrite Hy. cbn. rewrite Hk. cbn. split; [done|].
    by constructor.
Qed.

End ResultMonad.

Section Sorting.

Lemma sorted_lt_of_le_NoDup (l : list Z) :
  StronglySorted Z.le l → NoDup l → StronglySorted Z.lt l.
Proof.
  induction 1 as [|x l _ IH Hx]; intros Hnd; [constructor|].
  apply NoDup_cons in Hnd as [Hnx Hnd]. constructor; [auto|].
  apply Forall_forall. intros y Hy.
  rewrite Forall_forall in Hx. specialize (Hx y Hy).
  assert (x ≠ y) by (intros ->; done). lia.
Qed.

Lemma sorted_head_min (l : list Z) (x : Z) :
  StronglySorted Z.le l → x ∈ l → (∀ y, y ∈ l → x ≤ y) → head l = Some x.
Proof.
  intros Hs Hx Hmin. destruct Hs as [|y l _ Hy]; [by apply elem_of_nil in Hx|].
  cbn. f_equal. apply Z.le_antisymm.
  - apply elem_of_cons in Hx as [->|Hx]; [lia|].
    rewrite Forall_forall in Hy. auto.
  - apply Hmin. left.
Qed.

Lemma sorted_last_max (l : list Z) (x : Z) :
  StronglySorted Z.le l → x ∈ l → (∀ y, y ∈ l → y ≤ x) → last l = Some x.
Proof.
  induction 1 as [|y l Hs IH Hy]; intros Hx Hmax; [by apply elem_of_nil in Hx|].
  destruct l as [|z l].
  - apply list_elem_of_singleton in Hx as ->. done.
  - rewrite last_cons_cons. apply IH.
    + apply elem_of_cons in Hx as [->|Hx]; [|done].
      assert (z ≤ y) by (apply Hmax; right; left).
      assert (y ≤ z) by (by apply Forall_cons in Hy as [? _]).
      replace y with z by lia. left.
    + intros w Hw. apply Hmax. by right.
Qed.

(** The sorted list of a set depends on the set only, not on the order
    in which its elements are handed out. *)
Lemma sorted_with_unique (iter1 iter2 : gset Z → list Z) (s : gset Z) :
  iter1 s ≡ₚ elements s → iter2 s ≡ₚ elements s →
  sorted_with iter1 s = sorted_with iter2 s.
Proof.
  intros H1 H2. unfold sorted_with.
  apply (Sorted_unique Z.le).
  - apply Sorted_merge_sort; apply _.
  - apply Sorted_merge_sort; apply _.
  - by rewrite !merge_sort_Permutation, H1, H2.
Qed.

Lemma sorted_elements_spec (s : gset Z) :
  StronglySorted Z.lt (sorted_with elements s)
  ∧ (∀ x, x ∈ sorted_with elements s ↔ x ∈ s)
  ∧ length (sorted_with elements s) = size s.
Proof.
  unfold sorted_with.
  pose proof (merge_sort_Permutation Z.le (elements s)) as Hp.
  split; [|split].
  - apply sorted_lt_of_le_NoDup.
    + apply StronglySorted_merge_sort; apply _.
    + rewrite Hp. apply NoDup_elements.
  - intros x. rewrite Hp. apply elem_of_elements.
  - by rewrite Hp.
Qed.

Lemma size_list_to_set_le (l : list Z) :
  (size (list_to_set l : gset Z) ≤ length l)%nat.
Proof.
  unfold size, set_size; cbn. apply submseteq_length, NoDup_submseteq.
  - apply NoDup_elements.
  - intros x. rewrite elem_of_elements, elem_of_list_to_set. done.
Qed.

End Sorting.

Section PickIndices.

Lemma seqZ_increasing (m n : Z) : StronglySorted Z.lt (seqZ m n).
Proof.
  destruct (Z_le_gt_dec n 0) as [Hn|Hn].
  { rewrite seqZ_nil by done. constructor. }
  rewrite <- (Z2Nat.id n) by lia. generalize (Z.to_nat n) as k. clear.
  intros k. revert m. induction k as [|k IH]; intros m.
  - rewrite seqZ_nil by done. constructor.
  - rewrite seqZ_cons by lia.
    replace (Z.pred (Z.of_nat (S k))) with (Z.of_nat k) by lia.
    constructor; [apply IH|]. apply Forall_seqZ. lia.
Qed.

Lemma range_selection_ok (total max_captures : Z) :
  1 < total → total ≤ max_captures →
  selection_ok total max_captures (range total).
Proof.
  intros Ht Hm. unfold selection_ok, range. repeat split.
  - apply seqZ_increasing.
  - apply Forall_seqZ. lia.
  - rewrite length_seqZ. lia.
  - rewrite seqZ_cons by lia. done.
  - replace total with (Z.of_nat (S (Z.to_nat (total - 1)))) at 1 by lia.
    rewrite seqZ_S, last_snoc. f_equal. lia.
Qed.

(** The sampling branch, when [total - 1] is below [2^53]. *)
Lemma sampled_selection_ok (total max_captures : Z) :
  1 < max_captures → max_captures < total → total ≤ 2 ^ 53 →
  ∃ k, mapM (λ i, round <$> true_divide (i * (total - 1)) (max_captures - 1))
            (range max_captures) = Ok k
       ∧ selection_ok total max_captures
           (sorted_with elements (list_to_set k)).
Proof.
  intros Hm Ht Hbig.
  set (f := λ i, round <$> true_divide (i * (total - 1)) (max_captures - 1)).
  set (P := λ (i y : Z), 0 ≤ y ≤ total - 1 ∧ (i = 0 → y = 0)
                         ∧ (i = max_captures - 1 → y = total - 1)).
  destruct (mapM_result_ok f P (range max_captures)) as (k & Hk & HP).
  { apply Forall_seqZ. intros i Hi. unfold f, P.
    destruct (sample_within (i * (total - 1)) (max_captures - 1) (total - 1))
      as (x & -> & Hr & H0 & HN); [lia|nia|lia|].
    exists (round x). split; [done|].
    split; [lia|]. split; intros ->; [apply H0|apply HN]; lia. }
  exists k. split; [done|].
  destruct (sorted_elements_spec (list_to_set k)) as (Hs & Hin & Hlen).
  assert (∀ y, y ∈ k → 0 ≤ y ≤ total - 1) as Hbound.
  { intros y Hy. apply list_elem_of_lookup in Hy as [j Hj].
    destruct (Forall2_lookup_r _ _ _ _ _ HP Hj) as (i & _ & HPi). apply HPi. }
  assert (0 ∈ k) as Hk0.
  { assert (range max_captures !! 0%nat = Some 0) as H0.
    { unfold range. by rewrite lookup_seqZ_lt by lia. }
    destruct (Forall2_lookup_l _ _ _ _ _ HP H0) as (y & Hy & _ & Hy0 & _).
    rewrite Hy0 in Hy by done. by eapply list_elem_of_lookup_2. }
  assert (total - 1 ∈ k) as HkN.
  { assert (range max_captures !! Z.to_nat (max_captures - 1)
            = Some (max_captures - 1)) as HN.
    { unfold range. rewrite lookup_seqZ_lt by lia. f_equal. lia. }
    destruct (Forall2_lookup_l _ _ _ _ _ HP HN) as (y & Hy & _ & _ & HyN).
    rewrite HyN in Hy by done. by eapply list_elem_of_lookup_2. }
  assert (StronglySorted Z.le (sorted_with elements (list_to_set k))) as Hle.
  { apply StronglySorted_merge_sort; apply _. }
  unfold selection_ok. repeat split.
  - done.
  - apply Forall_forall. intros y Hy.
    apply Hin, elem_of_list_to_set, Hbound in Hy. lia.
  - rewrite Hlen. pose proof (size_list_to_set_le k) as Hsz.
    apply Forall2_length in HP. unfold range in HP.
    rewrite length_seqZ in HP. lia.
  - apply sorted_head_min; [done|by apply Hin, elem_of_list_to_set|].
    intros y Hy. apply Hin, elem_of_list_to_set, Hbound in Hy. lia.
  - apply sorted_last_max; [done|by apply Hin, elem_of_list_to_set|].
    intros y Hy. apply Hin, elem_of_list_to_set, Hbound in Hy. lia.
Qed.

End PickIndices.

(** C1 (as amended): for [1 < total ≤ 2^53] and [1 < max_captures],
    [pick_indices] returns a strictly increasing list of indices within
    [0, total), of length at most [max_captures], that starts with 0
    and ends with [total - 1]. *)
Theorem pick_indices_selection (total max_captures : Z) :
  1 < total → total ≤ 2 ^ 53 → 1 < max_captures →
  ∃ l, pick_indices total max_captures = Ok l
       ∧ selection_ok total max_captures l.
Proof.
  intros Ht Hbig Hm. unfold pick_indices, pick_indices_with.
  destruct (Z.leb_spec total 0); [lia|].
  destruct (Z.leb_spec max_captures 1); [lia|].
  destruct (Z.eqb_spec total 1); [lia|]. cbn [orb].
  destruct (Z.leb_spec total max_captures).
  - eexists; split; [done|]. by apply range_selection_ok.
  - destruct (sampled_selection_ok total max_captures) as (k & -> & Hok);
      [lia..|].
    eexists; split; [done|]. done.
Qed.

Lemma pick_indices_selection_witness :
  ∃ l, pick_indices 20 3 = Ok l ∧ selection_ok 20 3 l.
Proof. apply pick_indices_selection; [lia| |lia]. by vm_compute. Defined.

(** C1 (as stated) fails once [total - 1] is no binary64 number: the
    last pick for [total = 2^53 + 2] is [2^53]. *)
Lemma pick_indices_selection_fails_large :
  1 < 2 ^ 53 + 2 ∧ 1 < 2
  ∧ ¬ ∃ l, pick_indices (2 ^ 53 + 2) 2 = Ok l
           ∧ selection_ok (2 ^ 53 + 2) 2 l.
Proof.
  split; [by vm_compute|]. split; [lia|].
  intros (l & Hl & _ & _ & _ & _ & Hlast).
  vm_compute in Hl. injection Hl as <-. vm_compute in Hlast. discriminate.
Qed.

(** C2: [pick_indices(0, m)] is the empty list; for [n ≥ 1] it is [[0]]
    when [m ≤ 1] or [n = 1]; and for [1 ≤ n ≤ m] with [m > 1] it is the
    list 0, 1, ..., n-1 in this order. *)
Theorem pick_indices_cases (n m : Z) :
  pick_indices 0 m = Ok []
  ∧ (1 ≤ n → m ≤ 1 ∨ n = 1 → pick_indices n m = Ok [0])
  ∧ (1 ≤ n → n ≤ m → 1 < m →
     ∃ l, pick_indices n m = Ok l ∧ length l = Z.to_nat n
          ∧ ∀ i, (i < Z.to_nat n)%nat → l !! i = Some (Z.of_nat i)).
Proof.
  unfold pick_indices, pick_indices_with. split; [done|]. split.
  - intros Hn Hm. destruct (Z.leb_spec n 0); [lia|].
    destruct (Z.leb_spec m 1); [done|].
    destruct (Z.eqb_spec n 1); [done|]. lia.
  - intros Hn Hnm Hm. destruct (Z.leb_spec n 0); [lia|].
    destruct (Z.leb_spec m 1); [lia|]. cbn [orb].
    destruct (Z.eqb_spec n 1) as [->|Hn1].
    + exists [0]. split; [done|]. split; [done|].
      intros [|i] Hi; [done|]. change (Z.to_nat 1) with 1%nat in Hi. lia.
    + destruct (Z.leb_spec n m); [|lia].
      exists (range n). split; [done|]. unfold range.
      split; [apply length_seqZ|].
      intros i Hi. by rewrite lookup_seqZ_lt by lia.
Qed.

Lemma pick_indices_cases_witness :
  pick_indices 0 5 = Ok []
  ∧ pick_indices 7 1 = Ok [0]
  ∧ ∃ l, pick_indices 3 5 = Ok l ∧ length l = 3%nat
         ∧ ∀ i, (i < 3)%nat → l !! i = Some (Z.of_nat i).
Proof.
  destruct (pick_indices_cases 7 1) as (H0 & H1 & _).
  destruct (pick_indices_cases 3 5) as (_ & _ & H2).
  split; [apply (proj1 (pick_indices_cases 0 5))|].
  split; [apply H1; lia|]. apply H2; lia.
Defined.

(** C8: two calls of [pick_indices] with the same arguments give the
    same result, whatever order the set of picks hands out its elements
    in and whatever world (clock, files) the calls are made in. *)
Theorem pick_indices_deterministic
    (iter1 iter2 : gset Z → list Z) (total max_captures : Z) :
  (∀ s, iter1 s ≡ₚ elements s) → (∀ s, iter2 s ≡ₚ elements s) →
  pick_indices_with iter1 total max_captures
  = pick_indices_with iter2 total max_captures
  ∧ ∀ w1 w2 : World,
      (lift (pick_indices_with iter1 total max_captures) w1).1
      = (lift (pick_indices_with iter2 total max_captures) w2).1.
Proof.
  intros H1 H2.
  assert (pick_indices_with iter1 total max_captures
          = pick_indices_with iter2 total max_captures) as E.
  { unfold pick_indices_with.
    repeat match goal with |- context [if ?b then _ else _] =>
      destruct b; [done|] end.
    destruct (mapM _ _) as [k|e]; [|done]. cbn.
    f_equal. by apply sorted_with_unique. }
  split; [done|]. intros w1 w2. cbn. done.
Qed.

Lemma pick_indices_deterministic_witness :
  pick_indices_with elements 20 3
  = pick_indices_with (λ s, reverse (elements s)) 20 3.
Proof.
  apply (pick_indices_deterministic elements (λ s, reverse (elements s))).
  - done.
  - intros s. apply reverse_Permutation.
Defined.

(** ** Strings and frames *)

(** Decide a closed proposition by evaluation. *)
Ltac by_compute :=
  match goal with
  | |- ?P => apply (@bool_decide_unpack P _); vm_compute; exact I
  end.

(** ** Strings *)

Section Strings.

Lemma startswith_spec (p s : str) :
  startswith p s = true ↔ ∃ t, s = p ++ t.
Proof.
  revert s. induction p as [|a p IH]; intros s; cbn.
  - split; [eauto|done].
  - destruct s as [|b s]; [split; [done|by intros [? ?]]|].
    rewrite andb_true_iff, N.eqb_eq, IH. split.
    + intros [-> [t ->]]. eauto.
    + intros [t [= -> ->]]. eauto.
Qed.

Lemma startswith_app (p t : str) : startswith p (p ++ t) = true.
Proof. apply startswith_spec. eauto. Qed.

Lemma find_Some (sub s : str) (i : nat) :
  find sub s = Some i →
  s = take i s ++ sub ++ drop (i + length sub) s
  ∧ ∀ j, (j < i)%nat → startswith sub (drop j s) = false.
Proof.
  revert i. induction s as [|c s IH]; intros i; cbn [find].
  - destruct (startswith sub []) eqn:E; [|done]. intros [= <-].
    apply startswith_spec in E as [t E]. split; [|lia].
    symmetry in E. apply app_eq_nil in E as [-> ->]. done.
  - destruct (startswith sub (c :: s)) eqn:E.
    + intros [= <-]. split; [|lia].
      apply startswith_spec in E as [t E]. rewrite E at 1.
      cbn [take app Nat.add]. f_equal. rewrite E, drop_app_length. done.
    + intros Hf. destruct (find sub s) as [j|] eqn:Ej; [|done].
      injection Hf as <-. destruct (IH j eq_refl) as [Hs Hj].
      split.
      * cbn. f_equal. done.
      * intros [|k] Hk; [done|]. cbn. apply Hj. lia.
Qed.

Lemma find_None (sub s : str) :
  find sub s = None ↔ occurrences sub s = 0%nat.
Proof.
  induction s as [|c s IH]; cbn.
  - destruct (startswith sub []); [done|]. split; done.
  - destruct (startswith sub (c :: s)); [done|].
    destruct (find sub s); cbn; [|tauto].
    split; [done|]. intros H. by apply IH in H.
Qed.

Lemma find_lt (sub s : str) (i : nat) :
  find sub s = Some i → (i + length sub ≤ length s)%nat.
Proof.
  revert i. induction s as [|c s IH]; intros i; cbn [find].
  - destruct (startswith sub []) eqn:E; [|done]. intros [= <-].
    apply startswith_spec in E as [t E].
    symmetry in E. by apply app_eq_nil in E as [-> ->].
  - destruct (startswith sub (c :: s)) eqn:E.
    + intros [= <-]. apply startswith_spec in E as [t E].
      rewrite E, length_app. lia.
    + destruct (find sub s) as [j|]; [|done]. intros [= <-].
      specialize (IH j eq_refl). cbn. lia.
Qed.

Lemma contains_occurrences (sub s : str) :
  contains sub s = false ↔ occurrences sub s = 0%nat.
Proof.
  induction s as [|c s IH]; cbn.
  - destruct (startswith sub []); cbn; [split; done|done].
  - destruct (startswith sub (c :: s)); cbn; [split; done|]. done.
Qed.

Lemma occurrences_head (sub s : str) :
  startswith sub s = true → occurrences sub s ≠ 0%nat.
Proof. intros H. destruct s; cbn [occurrences]; rewrite H; lia. Qed.

(** A string that lacks [sub] lacks every string built around [sub]. *)
Lemma occurrences_around (c : char) (sub t s : str) :
  occurrences sub s = 0%nat → occurrences (c :: sub ++ t) s = 0%nat.
Proof.
  induction s as [|d s IH]; cbn [occurrences]; intros H; [done|].
  destruct (startswith sub (d :: s)) eqn:E0; [done|].
  cbn [Nat.add] in H. rewrite (IH H).
  destruct (startswith (c :: sub ++ t) (d :: s)) eqn:E; [|done].
  exfalso. apply startswith_spec in E as [u [= -> ->]].
  eapply occurrences_head; [|exact H].
  rewrite <- app_assoc. apply startswith_app.
Qed.

Lemma length_split_fuel (n : nat) (sep s : str) :
  length (split_fuel n sep s) = S (count_fuel n sep s).
Proof.
  revert s. induction n as [|n IH]; intros s; cbn; [done|].
  destruct (find sep s); cbn; [|done]. by rewrite IH.
Qed.

(** More fuel than the length of the text changes nothing. *)
Lemma split_fuel_enough (n : nat) (sep s : str) :
  sep ≠ [] → (length s ≤ n)%nat → split_fuel n sep s = split sep s.
Proof.
  intros Hsep. unfold split. revert s.
  induction n as [n IH] using lt_wf_ind. intros s Hn.
  destruct n as [|n].
  { destruct s; [done|cbn in Hn; lia]. }
  cbn [split_fuel]. destruct (find sep s) as [i|] eqn:Hf.
  - pose proof (find_lt _ _ _ Hf) as Hi.
    assert (0 < length sep)%nat by (destruct sep; [done|cbn; lia]).
    destruct (length s) as [|m] eqn:Hm; [lia|]. cbn [split_fuel].
    rewrite Hf. f_equal.
    assert (length (drop (i + length sep) s) ≤ m)%nat
      by (rewrite length_drop; lia).
    rewrite (IH n); [|lia|lia]. rewrite (IH m); [done|lia|done].
  - destruct (length s); cbn; by rewrite ?Hf.
Qed.

(** Joining the pieces with the separator gives the text back, and no
    piece contains the separator. *)
Lemma join_split_fuel (n : nat) (sep s : str) :
  sep ≠ [] → (length s ≤ n)%nat →
  join sep (split_fuel n sep s) = s
  ∧ Forall (λ piece, occurrences sep piece = 0%nat) (split_fuel n sep s).
Proof.
  intros Hsep. revert s. induction n as [|n IH]; intros s Hn.
  { destruct s; [|cbn in Hn; lia]. cbn. split; [done|].
    constructor; [|done]. cbn. by destruct sep. }
  cbn [split_fuel]. destruct (find sep s) as [i|] eqn:Hf.
  - pose proof (find_lt _ _ _ Hf) as Hi.
    assert (0 < length sep)%nat by (destruct sep; [done|cbn; lia]).
    destruct (IH (drop (i + length sep) s)) as [Hj Hfree].
    { rewrite length_drop. lia. }
    destruct (find_Some _ _ _ Hf) as [Hs Hno]. split.
    + destruct (split_fuel n sep _) eqn:E.
      { apply (f_equal length) in E. by rewrite length_split_fuel in E. }
      change (take i s ++ sep ++ join sep (l :: l0) = s).
      rewrite Hj. by symmetry.
    + constructor; [|done]. apply find_None.
      destruct (find sep (take i s)) as [j|] eqn:Hj'; [|done]. exfalso.
      pose proof (find_lt _ _ _ Hj') as Hjl. rewrite length_take in Hjl.
      apply find_Some in Hj' as [Hj' _].
      assert (startswith sep (drop j s) = true) as Hc; [|rewrite Hno in Hc; [done|lia]].
      apply startswith_spec.
      exists (drop (j + length sep) (take i s) ++ drop i s).
      rewrite <- (take_drop i s) at 1. rewrite Hj' at 1.
      rewrite drop_app_le by (rewrite length_app, length_take, length_take; lia).
      rewrite drop_app_length' by (rewrite length_take, length_take; lia).
      by rewrite <- app_assoc.
  - cbn. split; [done|]. constructor; [|done]. by apply find_None.
Qed.

End Strings.

Section Strip.

Context (p : char → bool).

Lemma lstrip_decompose (s : str) :
  ∃ pre, s = pre ++ lstrip p s ∧ Forall (λ c, p c = true) pre.
Proof.
  induction s as [|c s (pre & Hs & Hpre)]; cbn.
  - by exists [].
  - destruct (p c) eqn:E.
    + exists (c :: pre). split; [by rewrite Hs at 1|]. by constructor.
    + by exists [].
Qed.

Lemma lstrip_head (s : str) (c : char) :
  head (lstrip p s) = Some c → p c = false.
Proof.
  induction s as [|d s IH]; cbn; [done|].
  destruct (p d) eqn:E; [done|]. cbn. by intros [= <-].
Qed.

Lemma rstrip_decompose (s : str) :
  ∃ post, s = rstrip p s ++ post ∧ Forall (λ c, p c = true) post.
Proof.
  unfold rstrip. destruct (lstrip_decompose (reverse s)) as (pre & Hs & Hpre).
  exists (reverse pre). split.
  - rewrite <- reverse_app, <- Hs. by rewrite reverse_involutive.
  - by apply Forall_reverse.
Qed.

Lemma rstrip_last (s : str) (c : char) :
  last (rstrip p s) = Some c → p c = false.
Proof. unfold rstrip. rewrite last_reverse. apply lstrip_head. Qed.

(** [strip] removes characters of the given set from both ends, and
    nothing else. *)
Lemma strip_decompose (s : str) :
  ∃ pre post, s = pre ++ strip p s ++ post
              ∧ Forall (λ c, p c = true) pre
              ∧ Forall (λ c, p c = true) post.
Proof.
  unfold strip.
  destruct (lstrip_decompose s) as (pre & Hs & Hpre).
  destruct (rstrip_decompose (lstrip p s)) as (post & Ht & Hpost).
  exists pre, post. split; [|done]. by rewrite <- Ht.
Qed.

Lemma strip_head (s : str) (c : char) :
  head (strip p s) = Some c → p c = false.
Proof.
  unfold strip. destruct (rstrip_decompose (lstrip p s)) as (post & Ht & _).
  intros H. apply (lstrip_head s). rewrite Ht.
  destruct (rstrip p (lstrip p s)); [done|]. done.
Qed.

Lemma strip_last (s : str) (c : char) :
  last (strip p s) = Some c → p c = false.
Proof. apply rstrip_last. Qed.

Lemma strip_all (s : str) :
  Forall (λ c, p c = true) s → strip p s = [].
Proof.
  intros H. unfold strip. replace (lstrip p s) with (@nil N); [done|].
  induction H as [|c s Hc _ IH]; cbn; [done|]. by rewrite Hc.
Qed.

End Strip.

Lemma all_newlines (l : str) :
  Forall (λ c, is_newline c = true) l → l = replicate (length l) LF.
Proof.
  induction 1 as [|c l Hc _ IH]; cbn; [done|].
  apply N.eqb_eq in Hc. by rewrite Hc, <- IH.
Qed.

Lemma strip_newline_stripped (s : str) :
  newline_stripped (strip is_newline s).
Proof.
  split; intros H; [apply strip_head in H|apply strip_last in H]; done.
Qed.

Lemma split_frames_stripped (raw : str) :
  Forall newline_stripped (split_frames raw).
Proof.
  unfold split_frames. destruct (contains _ _).
  - apply Forall_fmap, Forall_forall. intros piece _.
    apply strip_newline_stripped.
  - constructor; [apply strip_newline_stripped|done].
Qed.

Section SplitFrames.

Lemma occurrences_drop (sub s : str) (k : nat) :
  (occurrences sub (drop k s) ≤ occurrences sub s)%nat.
Proof.
  revert k. induction s as [|c s IH]; intros [|k]; cbn [drop]; try lia.
  specialize (IH k). cbn [occurrences]. lia.
Qed.

Lemma occurrences_after (sub s : str) (i k : nat) :
  sub ≠ [] → startswith sub (drop i s) = true → (i < k)%nat →
  (S (occurrences sub (drop k s)) ≤ occurrences sub s)%nat.
Proof.
  intros Hsub. revert i k. induction s as [|c s IH]; intros i k Hi Hk.
  - rewrite drop_nil in Hi. by destruct sub.
  - destruct k as [|k]; [lia|]. cbn [drop]. destruct i as [|i].
    + cbn [drop] in Hi. cbn [occurrences]. rewrite Hi.
      pose proof (occurrences_drop sub s k). lia.
    + cbn [drop] in Hi. specialize (IH i k Hi ltac:(lia)).
      cbn [occurrences]. lia.
Qed.

Lemma find_startswith (sub s : str) (i : nat) :
  find sub s = Some i → startswith sub (drop i s) = true.
Proof.
  intros H. pose proof (find_lt _ _ _ H) as Hl.
  apply find_Some in H as [H _].
  apply startswith_spec. exists (drop (i + length sub) s).
  rewrite H at 1. rewrite drop_app_length'; [done|].
  rewrite length_take. lia.
Qed.

(** Counting without overlap never counts more than there are
    positions. *)
Lemma count_fuel_le_occurrences (n : nat) (sub s : str) :
  sub ≠ [] → (count_fuel n sub s ≤ occurrences sub s)%nat.
Proof.
  intros Hsub. revert s. induction n as [|n IH]; intros s; cbn; [lia|].
  destruct (find sub s) as [i|] eqn:Hf; [|lia].
  specialize (IH (drop (i + length sub) s)).
  assert (0 < length sub)%nat by (destruct sub; [done|cbn; lia]).
  pose proof (occurrences_after sub s i (i + length sub) Hsub
                (find_startswith _ _ _ Hf) ltac:(lia)). lia.
Qed.

Lemma count_fuel_none (n : nat) (sub s : str) :
  occurrences sub s = 0%nat → count_fuel n sub s = 0%nat.
Proof.
  intros H. apply find_None in H. destruct n; cbn; [done|]. by rewrite H.
Qed.

Lemma no_marker_no_separator (raw : str) :
  contains FRAME_MARKER raw = false →
  occurrences FRAME_SEPARATOR raw = 0%nat.
Proof.
  intros H. change FRAME_SEPARATOR with (LF :: FRAME_MARKER ++ [LF]).
  by apply occurrences_around, contains_occurrences.
Qed.

Lemma split_frames_no_separator (raw : str) :
  occurrences FRAME_SEPARATOR raw = 0%nat →
  split_frames raw = [strip is_newline raw].
Proof.
  intros H. unfold split_frames. destruct (contains _ _); [|done].
  apply find_None in H. unfold split.
  destruct (length raw); cbn; [done|]. by rewrite H.
Qed.

End SplitFrames.

(** C3 (as amended): [split_frames] returns one frame more than
    [raw_text.count(separator)], the number of occurrences of the
    separator counted from the left without overlap (never more than
    the number of positions at which it occurs); each frame is free of
    newlines at both ends; and a text in which the separator occurs
    nowhere gives the single frame [raw_text.strip("\n")]. *)
Theorem split_frames_count (raw : str) :
  length (split_frames raw) = S (count FRAME_SEPARATOR raw)
  ∧ (count FRAME_SEPARATOR raw ≤ occurrences FRAME_SEPARATOR raw)%nat
  ∧ Forall newline_stripped (split_frames raw)
  ∧ (occurrences FRAME_SEPARATOR raw = 0%nat →
     split_frames raw = [strip is_newline raw]).
Proof.
  split; [|split; [|split]].
  - unfold split_frames, count. destruct (contains _ _) eqn:E.
    + rewrite length_fmap. apply length_split_fuel.
    + by rewrite count_fuel_none by by apply no_marker_no_separator.
  - by apply count_fuel_le_occurrences.
  - apply split_frames_stripped.
  - apply split_frames_no_separator.
Qed.

Lemma split_frames_count_witness :
  occurrences FRAME_SEPARATOR (lit "hello") = 0%nat
  ∧ split_frames (lit "hello") = [strip is_newline (lit "hello")].
Proof.
  split; [by vm_compute|].
  apply (split_frames_count (lit "hello")). by vm_compute.
Defined.

(** C3 (as stated) fails when two separators share a newline. *)
Lemma adjacent_separators_merge :
  occurrences FRAME_SEPARATOR
    (lit "A" ++ FRAME_SEPARATOR ++ FRAME_MARKER ++ [LF] ++ lit "B") = 2%nat
  ∧ ¬ frames_per_occurrence
        (lit "A" ++ FRAME_SEPARATOR ++ FRAME_MARKER ++ [LF] ++ lit "B").
Proof.
  split; [by vm_compute|]. intros [H _]. vm_compute in H. discriminate.
Qed.

Example adjacent_separators_frames :
  split_frames (lit "A" ++ FRAME_SEPARATOR ++ FRAME_MARKER ++ [LF] ++ lit "B")
  = [lit "A"; FRAME_MARKER ++ [LF] ++ lit "B"].
Proof. by vm_compute. Qed.

(** C9: a raw frame made of whitespace only is dropped by the filter,
    and a frame that passes the filter is a piece of the text from which
    nothing but newline characters at its two ends was removed. *)
Theorem blank_frames_dropped (raw f : str) :
  (f ∈ split_frames raw → Forall (λ c, isspace c = true) f →
   f ∉ kept_frames raw)
  ∧ (f ∈ kept_frames raw →
     ∃ piece a b, piece ∈ raw_pieces raw
                  ∧ piece = replicate a LF ++ f ++ replicate b LF).
Proof.
  split.
  - intros _ Hf Hin. apply list_elem_of_filter in Hin as [Hnb _].
    unfold nonblank in Hnb. by rewrite strip_all in Hnb.
  - intros Hin. apply list_elem_of_filter in Hin as [_ Hin].
    assert (∃ piece, piece ∈ raw_pieces raw ∧ f = strip is_newline piece)
      as (piece & Hp & ->).
    { unfold split_frames, raw_pieces in *. destruct (contains _ _).
      - apply list_elem_of_fmap in Hin as (piece & -> & Hp). eauto.
      - apply list_elem_of_singleton in Hin as ->. eexists; split; [left|done]. }
    destruct (strip_decompose is_newline piece) as (pre & post & Hs & Hpre & Hpost).
    exists piece, (length pre), (length post). split; [done|].
    by rewrite <- (all_newlines pre), <- (all_newlines post).
Qed.

Lemma blank_frames_dropped_witness :
  (lit "  " ∉ kept_frames (lit "A" ++ FRAME_SEPARATOR ++ lit "  "))
  ∧ (∃ piece a b,
       piece ∈ raw_pieces (lit " x " ++ [LF])
       ∧ piece = replicate a LF ++ lit " x " ++ replicate b LF).
Proof.
  split.
  - apply (blank_frames_dropped (lit "A" ++ FRAME_SEPARATOR ++ lit "  ")
             (lit "  ")); by_compute.
  - apply (blank_frames_dropped (lit " x " ++ [LF]) (lit " x ")).
    by_compute.
Defined.

Section Lines.

Lemma join_cons_cons (sep x y : str) (l : list (list N)) :
  join sep (x :: y :: l) = x ++ sep ++ join sep (y :: l).
Proof. done. Qed.

Lemma splitlines_go_nil (cur s : str) :
  splitlines_go cur s = [] → cur = [] ∧ s = [].
Proof.
  revert cur. induction s as [|c s IH]; intros cur; cbn.
  - by destruct cur.
  - destruct (is_linebreak c); [done|]. intros H.
    by destruct (IH _ H).
Qed.

(** With ["\n"] the only line boundary in use and no newline at the
    end, joining the lines gives the text back. *)
Lemma join_splitlines_go (cur s : str) :
  Forall (λ c, is_linebreak c = true → c = LF) s → last s ≠ Some LF →
  join [LF] (splitlines_go cur s) = reverse cur ++ s.
Proof.
  intros Hs. revert cur. induction Hs as [|c s Hc Hs IH]; intros cur Hlast.
  - cbn. destruct cur; [done|]. by rewrite app_nil_r.
  - cbn [splitlines_go]. destruct (is_linebreak c) eqn:E.
    + rewrite (Hc eq_refl) in *. clear Hc E.
      destruct s as [|d s]; [done|]. rewrite last_cons_cons in Hlast.
      change ((LF =? CR)%N) with false. cbn [andb].
      destruct (splitlines_go [] (d :: s)) as [|x l] eqn:El.
      { by apply splitlines_go_nil in El as [_ ?]. }
      rewrite join_cons_cons, <- El, IH by done. done.
    + rewrite IH.
      * rewrite reverse_cons, <- app_assoc. done.
      * destruct s; [done|]. by rewrite last_cons_cons in Hlast.
Qed.

(** No line holds a line boundary. *)
Lemma splitlines_go_free (cur s : str) :
  Forall (λ c, is_linebreak c = false) cur →
  Forall (Forall (λ c, is_linebreak c = false)) (splitlines_go cur s).
Proof.
  revert cur. induction s as [s IH] using (induction_ltof1 _ length).
  unfold ltof in IH. intros cur Hcur. destruct s as [|c s']; cbn.
  - destruct cur; [done|]. constructor; [|done]. by apply Forall_reverse.
  - destruct (is_linebreak c) eqn:E.
    + constructor; [by apply Forall_reverse|].
      destruct s' as [|d s'']; [by apply IH; cbn; [lia|]|].
      destruct (_ && _); apply IH; cbn; try lia; done.
    + apply IH; [cbn; lia|]. by constructor.
Qed.

Lemma join_free (l : list (list N)) :
  Forall (Forall (λ c, is_linebreak c = false)) l →
  Forall (λ c, is_linebreak c = true → c = LF) (join [LF] l).
Proof.
  induction 1 as [|x l Hx Hl IH]; [done|].
  assert (Forall (λ c, is_linebreak c = true → c = LF) x) as Hx'.
  { eapply Forall_impl; [done|]. cbn. intros c -> ?. done. }
  destruct l as [|y l]; [done|].
  rewrite join_cons_cons. apply Forall_app. split; [done|].
  apply Forall_app. split; [|done]. by constructor.
Qed.

(** A preview holds no line boundary other than ["\n"]. *)
Lemma preview_linebreaks (lines_per_capture : Z) (f : str) :
  Forall (λ c, is_linebreak c = true → c = LF)
         (preview_of lines_per_capture f).
Proof.
  unfold preview_of. apply join_free, Forall_take.
  by apply splitlines_go_free.
Qed.

Lemma universal_newlines_no_CR (s : str) :
  CR ∉ OS.universal_newlines s.
Proof.
  induction s as [s IH] using (induction_ltof1 _ length).
  unfold ltof in IH. destruct s as [|c s']; cbn; [by intros ?%elem_of_nil|].
  destruct (N.eqb_spec c CR) as [->|Hc].
  - intros [?|H]%elem_of_cons; [done|]. revert H.
    destruct s' as [|d s'']; [by intros ?%elem_of_nil|].
    destruct (d =? LF)%N; apply IH; cbn; lia.
  - intros [?|H]%elem_of_cons; [done|]. revert H. apply IH. cbn; lia.
Qed.

End Lines.

Lemma select_frames_stripped (raw : str) :
  Forall newline_stripped (select_frames raw).
Proof.
  unfold select_frames, kept_frames.
  pose proof (split_frames_stripped raw) as H.
  assert (Forall newline_stripped
            (filter (λ f, nonblank f = true) (split_frames raw))) as H'.
  { rewrite Forall_forall in *. intros f [_ Hf]%list_elem_of_filter. auto. }
  destruct (filter _ _); [|done].
  constructor; [|done]. split; by vm_compute.
Qed.

(** C10: the preview of a selected frame that uses no line boundary
    but ["\n"] and has no more than [max(1, lines_per_capture)] lines is
    the frame text itself; a frame that holds any other line boundary
    never equals its preview, whatever the number of lines. *)
Theorem preview_identity (raw f : str) (lines_per_capture : Z) :
  (f ∈ select_frames raw →
   Forall (λ c, is_linebreak c = true → c = LF) f →
   Z.of_nat (length (splitlines f)) ≤ Z.max 1 lines_per_capture →
   preview_of lines_per_capture f = f)
  ∧ (∀ c, c ∈ f → is_linebreak c = true → c ≠ LF →
     preview_of lines_per_capture f ≠ f).
Proof.
  split.
  - intros Hin Hlf Hlen. unfold preview_of.
    rewrite take_ge by lia. unfold splitlines.
    rewrite join_splitlines_go; [done|done|].
    pose proof (select_frames_stripped raw) as Hs.
    rewrite Forall_forall in Hs. by destruct (Hs f Hin).
  - intros c Hc Hlb Hne Heq.
    pose proof (preview_linebreaks lines_per_capture f) as H.
    rewrite Heq, Forall_forall in H. by apply Hne, H.
Qed.

Lemma preview_identity_witness :
  preview_of 40 (lit "hello" ++ [LF] ++ lit "world")
  = lit "hello" ++ [LF] ++ lit "world"
  ∧ preview_of 40 (lit "a" ++ [FF] ++ lit "b") ≠ lit "a" ++ [FF] ++ lit "b".
Proof.
  split.
  - apply (preview_identity (lit "hello" ++ [LF] ++ lit "world")); by_compute.
  - apply (preview_identity [] (lit "a" ++ [FF] ++ lit "b") 40) with FF;
      by_compute.
Defined.

Example preview_form_feed :
  select_frames (lit "a" ++ [FF] ++ lit "b") = [lit "a" ++ [FF] ++ lit "b"]
  ∧ preview_of 40 (lit "a" ++ [FF] ++ lit "b") = lit "a" ++ [LF] ++ lit "b"
  ∧ preview_of 40 (lit "a" ++ [CR] ++ lit "b") = lit "a" ++ [LF] ++ lit "b".
Proof. by vm_compute. Qed.

(** ** Decimal formatting *)

Section Decimal.

Lemma digits_uint_digits (d : Decimal.uint) :
  digits_uint (uint_digits d) = Some d.
Proof. induction d as [|d IH|d IH|d IH|d IH|d IH|d IH|d IH|d IH|d IH|d IH]; cbn; by rewrite ?IH. Qed.

Lemma uint_digits_are_digits (d : Decimal.uint) :
  Forall (λ c, is_digit c = true) (uint_digits d).
Proof. induction d; cbn; by constructor. Qed.

Lemma digits_uint_zeros (k : nat) (s : str) :
  digits_uint (replicate k 48%N ++ s) = Nat.iter k Decimal.D0 <$> digits_uint s.
Proof.
  induction k as [|k IH]; cbn [replicate app Nat.iter].
  - by destruct (digits_uint s).
  - cbn [digits_uint]. rewrite IH. by destruct (digits_uint s).
Qed.

Lemma of_uint_zeros (k : nat) (d : Decimal.uint) :
  N.of_uint (Nat.iter k Decimal.D0 d) = N.of_uint d.
Proof. induction k as [|k IH]; [done|]. cbn [Nat.iter]. by rewrite <- IH. Qed.

Lemma format_d_nonneg (width : nat) (n : Z) :
  0 ≤ n →
  format_d width n
  = replicate (width - length (uint_digits (N.to_uint (Z.to_N n)))) 48%N
    ++ uint_digits (N.to_uint (Z.to_N n)).
Proof.
  intros Hn. unfold format_d.
  replace (n <? 0) with false by (symmetry; apply Z.ltb_ge; lia).
  replace (Z.abs_N n) with (Z.to_N n) by (destruct n; [done|done|lia]).
  cbn [app length]. by rewrite Nat.sub_0_r.
Qed.

Lemma decimal_value_format_d (width : nat) (n : Z) :
  0 ≤ n → decimal_value (format_d width n) = Some n.
Proof.
  intros Hn. rewrite format_d_nonneg by done. unfold decimal_value.
  rewrite digits_uint_zeros, digits_uint_digits. cbn.
  rewrite of_uint_zeros, DecimalN.Unsigned.of_to. f_equal. lia.
Qed.

Lemma format_d_inj (width : nat) (n1 n2 : Z) :
  0 ≤ n1 → 0 ≤ n2 → format_d width n1 = format_d width n2 → n1 = n2.
Proof.
  intros H1 H2 E. apply (f_equal decimal_value) in E.
  rewrite !decimal_value_format_d in E by done. by injection E.
Qed.

Lemma format_d_digits (width : nat) (n : Z) :
  0 ≤ n → Forall (λ c, is_digit c = true) (format_d width n).
Proof.
  intros Hn. rewrite format_d_nonneg by done. apply Forall_app. split.
  - by apply Forall_replicate.
  - apply uint_digits_are_digits.
Qed.

(** The numeral of a positive number does not start with a zero. *)
Lemma to_uint_head (p : positive) (d : Decimal.uint) :
  Pos.to_uint p ≠ Decimal.D0 d.
Proof.
  intros E.
  pose proof (DecimalPos.Unsigned.to_of (Pos.to_uint p)) as H.
  rewrite DecimalPos.Unsigned.of_to in H. cbn [N.to_uint] in H.
  rewrite E, DecimalFacts.unorm_D0 in H.
  assert (d = Decimal.Nil ∨ d ≠ Decimal.Nil) as [->|Hd]
    by (destruct d; [by left|by right..]).
  - by apply (DecimalPos.Unsigned.to_uint_nonzero p).
  - pose proof (DecimalFacts.nb_digits_unorm d Hd) as Hle.
    rewrite <- H in Hle. cbn in Hle. lia.
Qed.

Lemma format_d_padded (width : nat) (n : Z) :
  0 ≤ n → (0 < width)%nat → padded_decimal width n (format_d width n).
Proof.
  intros Hn Hw. split; [by apply decimal_value_format_d|].
  rewrite format_d_nonneg by done.
  set (digits := uint_digits (N.to_uint (Z.to_N n))).
  rewrite length_app, length_replicate. split; [lia|].
  intros Hlen. replace (width - length digits)%nat with 0%nat by lia.
  cbn [replicate app]. unfold digits.
  destruct (Z.to_N n) as [|p] eqn:Ep.
  { subst digits. cbn in Hlen. lia. }
  cbn [N.to_uint]. pose proof (to_uint_head p) as Hp.
  destruct (Pos.to_uint p); cbn; try done. by destruct (Hp u).
Qed.

End Decimal.

(** ** Paths *)

Section Paths.

Import Path.

Lemma segments_slash_free (cur s : str) :
  slash_free s → segments cur s = [reverse cur ++ s].
Proof.
  intros Hs. revert cur. induction Hs as [|c s Hc _ IH]; intros cur; cbn.
  - by rewrite app_nil_r.
  - destruct (N.eqb_spec c SLASH); [done|].
    by rewrite IH, reverse_cons, <- app_assoc.
Qed.

(** Text added after the last slash goes into the last segment. *)
Lemma segments_app (cur p : str) :
  ∃ init final, ∀ s, slash_free s →
    segments cur (p ++ s) = init ++ [final ++ s].
Proof.
  revert cur. induction p as [|c p IH]; intros cur.
  - exists [], (reverse cur). intros s Hs. by apply segments_slash_free.
  - cbn. destruct (c =? SLASH)%N.
    + destruct (IH []) as (init & final & H).
      exists (reverse cur :: init), final. intros s Hs. by rewrite H.
    + apply IH.
Qed.

Lemma absolute_app (p s : str) :
  head s = Some 45%N →
  startswith [SLASH] (p ++ s) = startswith [SLASH] (p ++ [45%N]).
Proof.
  intros Hs. destruct p as [|c p]; cbn.
  - destruct s as [|d s]; [done|]. injection Hs as ->. done.
  - done.
Qed.

(** Two names that differ after a common beginning, in a part without
    slashes that starts with a dash, name different paths. *)
Lemma joinpath_suffix_inj (out : list (list N)) (p s1 s2 : str) :
  slash_free s1 → slash_free s2 →
  head s1 = Some 45%N → head s2 = Some 45%N →
  joinpath out (p ++ s1) = joinpath out (p ++ s2) → s1 = s2.
Proof.
  intros Hf1 Hf2 Hh1 Hh2. unfold joinpath, parts.
  rewrite (absolute_app p s1), (absolute_app p s2) by done.
  destruct (segments_app [] p) as (init & final & H).
  rewrite !H by done. rewrite !filter_app.
  assert (∀ s, head s = Some 45%N →
            filter (λ c : list N, c ≠ [] ∧ c ≠ [46%N]) [final ++ s]
            = [final ++ s]) as Hkeep.
  { intros s Hs. rewrite filter_cons_True; [done|].
    destruct s as [|d s]; [done|]. injection Hs as ->.
    split; [by destruct final|]. destruct final as [|? [|? ?]]; done. }
  rewrite !Hkeep by done.
  destruct (startswith _ _); rewrite ?app_assoc; intros E;
    apply app_inj_tail in E as [_ E]; by apply app_inv_head in E.
Qed.

(** A name without slashes that is not empty and not a dot names an
    entry of the directory itself. *)
Lemma joinpath_plain (out : list (list N)) (name : str) :
  slash_free name → name ≠ [] → name ≠ [46%N] →
  joinpath out name = out ++ [name].
Proof.
  intros Hf Hne Hdot. unfold joinpath, parts.
  rewrite segments_slash_free by done. cbn [reverse app].
  rewrite filter_cons_True by done.
  destruct name as [|c name]; [done|].
  apply Forall_cons in Hf as [Hc _].
  change (startswith [SLASH] (c :: name)) with ((SLASH =? c)%N && true).
  replace (SLASH =? c)%N with false; [done|].
  symmetry. apply N.eqb_neq. congruence.
Qed.

Lemma format_d_slash_free (width : nat) (n : Z) :
  slash_free (format_d width n).
Proof.
  unfold format_d. apply Forall_app. split; [destruct (n <? 0); by repeat constructor|].
  apply Forall_app. split; [by apply Forall_replicate|].
  eapply Forall_impl; [apply uint_digits_are_digits|].
  intros c Hc ->. done.
Qed.

Lemma strftime_slash_free (now : datetime) :
  slash_free (strftime_compact now).
Proof.
  unfold strftime_compact, slash_free.
  rewrite !Forall_app. repeat split; try apply format_d_slash_free; by_compute.
Qed.

Lemma digits_prefix_unique (d1 d2 r1 r2 : str) :
  Forall (λ c, is_digit c = true) d1 → Forall (λ c, is_digit c = true) d2 →
  head r1 = Some 45%N → head r2 = Some 45%N →
  d1 ++ r1 = d2 ++ r2 → d1 = d2.
Proof.
  intros H1. revert d2. induction H1 as [|c d1 Hc _ IH]; intros d2 H2 Hr1 Hr2 E.
  - destruct H2 as [|c d2 Hc _]; [done|]. cbn in E.
    destruct r1; [done|]. injection Hr1 as ->. by injection E as <-.
  - destruct H2 as [|c' d2 Hc' H2].
    + cbn in E. destruct r2; [done|]. injection Hr2 as ->. by injection E as ->.
    + cbn in E. injection E as -> E. f_equal. by apply IH.
Qed.

End Paths.

Section Names.

Context (prefix timestamp : str) (out : list (list N)).
Hypothesis timestamp_slash_free : slash_free timestamp.

Lemma capture_suffix_slash_free (capture_no frame_idx : Z) :
  slash_free (lit "-" ++ timestamp ++ lit "-capture-" ++ format_d 2 capture_no
              ++ lit "-frame-" ++ format_d 4 frame_idx ++ lit ".txt").
Proof.
  unfold slash_free. rewrite !Forall_app.
  repeat split; try apply format_d_slash_free; try done; by_compute.
Qed.

Lemma capture_path_inj (no1 no2 idx1 idx2 : Z) :
  0 ≤ no1 → 0 ≤ no2 →
  Path.joinpath out (capture_name prefix timestamp no1 idx1)
  = Path.joinpath out (capture_name prefix timestamp no2 idx2) →
  no1 = no2.
Proof.
  intros H1 H2 E. unfold capture_name in E.
  apply joinpath_suffix_inj in E;
    [|apply capture_suffix_slash_free..|done|done].
  apply app_inv_head, app_inv_head, app_inv_head in E.
  apply digits_prefix_unique in E; [|by apply format_d_digits..|done|done].
  by apply format_d_inj in E.
Qed.

Lemma report_path_fresh (capture_no frame_idx : Z) :
  Path.joinpath out (report_name prefix timestamp)
  ≠ Path.joinpath out (capture_name prefix timestamp capture_no frame_idx).
Proof.
  unfold report_name, capture_name. intros E.
  apply joinpath_suffix_inj in E;
    [|
     |apply capture_suffix_slash_free|done|done].
  - apply app_inv_head, app_inv_head in E. discriminate.
  - unfold slash_free. rewrite !Forall_app. repeat split; try done; by_compute.
Qed.

End Names.

(** ** The file system *)

Section FileSystem.

Lemma is_dir_dirs (w w' : World) (p : list (list N)) :
  dirs w' = dirs w → is_dir w' p = is_dir w p.
Proof. unfold is_dir. by intros ->. Qed.

(** A path without [".."] leads to itself. *)
Lemma locate_from_plain (shown cur comps q : list (list N)) (w : World) :
  Path.DOTDOT ∉ comps → OS.locate_from shown cur comps w = Ok q →
  q = cur ++ comps.
Proof.
  revert cur. induction comps as [|c cs IH]; intros cur Hdd; cbn.
  - intros [= <-]. by rewrite app_nil_r.
  - apply not_elem_of_cons in Hdd as [Hc Hcs].
    rewrite bool_decide_false by done.
    destruct cs as [|c' cs']; [by intros [= <-]|].
    destruct (is_dir w (cur ++ [c])); [|by destruct (is_file w (cur ++ [c]))].
    intros H. apply IH in H; [|done]. by rewrite <- app_assoc in H.
Qed.

(** Where a path leads depends on the directories only. *)
Lemma locate_from_dirs (shown shown' cur comps q : list (list N)) (w w' : World) :
  dirs w' = dirs w → OS.locate_from shown cur comps w = Ok q →
  OS.locate_from shown' cur comps w' = Ok q.
Proof.
  intros Hd. revert cur. induction comps as [|c cs IH]; intros cur; cbn; [done|].
  destruct (bool_decide (c = Path.DOTDOT)); [apply IH|].
  destruct cs as [|c' cs']; [done|].
  rewrite (is_dir_dirs w w') by done.
  destruct (is_dir w (cur ++ [c])); [apply IH|].
  by destruct (is_file w (cur ++ [c])).
Qed.

(** Paths that differ in their last component only lead to entries of
    one directory. *)
Lemma locate_from_last (shown cur init q : list (list N)) (c : list N) (w : World) :
  c ≠ Path.DOTDOT → OS.locate_from shown cur (init ++ [c]) w = Ok q →
  ∃ d, q = d ++ [c]
       ∧ ∀ shown' c', c' ≠ Path.DOTDOT →
           OS.locate_from shown' cur (init ++ [c']) w = Ok (d ++ [c']).
Proof.
  intros Hc. revert cur. induction init as [|x init IH]; intros cur.
  - cbn. rewrite bool_decide_false by done. intros [= <-].
    exists cur. split; [done|]. intros shown' c' Hc'.
    by rewrite bool_decide_false by done.
  - cbn [app OS.locate_from].
    destruct (bool_decide (x = Path.DOTDOT)) eqn:Ex.
    { intros H. apply IH in H as (d & -> & Hall). exists d. split; [done|].
      intros shown' c' Hc'. by apply Hall. }
    assert (∀ (c0 : list N) (X Y : result (list (list N))),
              match init ++ [c0] with [] => X | _ :: _ => Y end = Y) as Hm
      by (intros; by destruct init).
    rewrite Hm. setoid_rewrite Hm.
    destruct (is_dir w (cur ++ [x])) eqn:Ed;
      [|by destruct (is_file w (cur ++ [x]))].
    intros H. apply IH in H as (d & -> & Hall). by exists d.
Qed.

(** A path without [".."] whose components, the last one apart, are
    directories leads to itself. *)
Lemma locate_from_ok (shown cur comps : list (list N)) (w : World) :
  Path.DOTDOT ∉ comps →
  (∀ k, (0 < k < length comps)%nat → is_dir w (cur ++ take k comps) = true) →
  OS.locate_from shown cur comps w = Ok (cur ++ comps).
Proof.
  revert cur. induction comps as [|c cs IH]; intros cur Hdd Hway; cbn.
  - by rewrite app_nil_r.
  - apply not_elem_of_cons in Hdd as [Hc Hcs].
    rewrite bool_decide_false by done.
    destruct cs as [|c' cs']; [done|].
    pose proof (Hway 1%nat ltac:(cbn; lia)) as H1.
    change (cur ++ take 1 (c :: c' :: cs')) with (cur ++ [c]) in H1.
    rewrite H1, IH; [by rewrite <- app_assoc|done|].
    intros k Hk. rewrite <- app_assoc. apply (Hway (S k)). cbn in *. lia.
Qed.

Lemma write_text_inv (p : list (list N)) (text : str) (w w' : World) (u : unit) :
  OS.write_text p text w = (Ok u, w') →
  ∃ q, OS.locate p w = Ok q ∧ is_dir w q = false ∧ w' = put_file q text w.
Proof.
  unfold OS.write_text. destruct (OS.locate p w) as [q|e]; [|by intros [=]].
  destruct (is_dir w q) eqn:E; [by intros [=]|]. intros [= <-]. eauto.
Qed.

Lemma write_text_ok (p q : list (list N)) (text : str) (w : World) :
  OS.locate p w = Ok q → is_dir w q = false →
  OS.write_text p text w = (Ok (), put_file q text w).
Proof. unfold OS.write_text. by intros -> ->. Qed.

Lemma locate_dirs (p q : list (list N)) (w w' : World) :
  dirs w' = dirs w → OS.locate p w = Ok q → OS.locate p w' = Ok q.
Proof. apply locate_from_dirs. Qed.

Lemma locate_put_file (p q x : list (list N)) (text : str) (w : World) :
  OS.locate p (put_file q text w) = Ok x ↔ OS.locate p w = Ok x.
Proof. split; by apply locate_from_dirs. Qed.

Lemma is_dir_put_file (p q : list (list N)) (text : str) (w : World) :
  is_dir (put_file p text w) q = is_dir w q.
Proof. done. Qed.

Lemma is_file_put_file_ne (p q : list (list N)) (text : str) (w : World) :
  p ≠ q → is_file (put_file p text w) q = is_file w q.
Proof.
  intros Hne. unfold is_file, put_file; cbn. by rewrite lookup_insert_ne.
Qed.

(** Making directories touches nothing but the set of directories, and
    adds only the path asked for and what leads to it. *)
Lemma mkdir_from_frame (comps base : list (list N)) (w w' : World) (r : result unit) :
  OS.mkdir_from base comps w = (r, w') →
  files w' = files w ∧ clock w' = clock w
  ∧ stdout w' = stdout w ∧ stderr w' = stderr w
  ∧ (∀ p, p ∈ dirs w' →
       p ∈ dirs w ∨ ∃ k, (0 < k ≤ length comps)%nat ∧ p = base ++ take k comps).
Proof.
  revert base w. induction comps as [|c cs IH]; intros base w; cbn.
  - intros [= <- <-]. repeat split; auto.
  - destruct (is_file w (base ++ [c])).
    { intros [= <- <-]. repeat split; auto. }
    intros H. apply IH in H as (Hf & Hc & Ho & He & Hd).
    assert (∀ X, (if is_dir w (base ++ [c]) then w else add_dir (base ++ [c]) w) = X →
                 files X = files w ∧ clock X = clock w ∧ stdout X = stdout w
                 ∧ stderr X = stderr w
                 ∧ ∀ p, p ∈ dirs X → p ∈ dirs w ∨ p = base ++ [c]) as HX.
    { intros X <-. destruct (is_dir w _); cbn; repeat split; auto.
      intros p [Hp|?]%elem_of_union; auto.
      apply elem_of_singleton in Hp. auto. }
    destruct (HX _ eq_refl) as (Hf' & Hc' & Ho' & He' & Hd').
    rewrite Hf, Hc, Ho, He. repeat split; auto.
    intros p Hp. destruct (Hd p Hp) as [Hp'|(k & Hk & ->)].
    + destruct (Hd' p Hp') as [? | ->]; [by left|].
      right. exists 1%nat. cbn. split; [lia|]. by rewrite take_0.
    + right. exists (S k). cbn. split; [lia|]. by rewrite <- app_assoc.
Qed.

(** Making directories removes none. *)
Lemma mkdir_from_mono (comps base : list (list N)) (w w' : World)
    (r : result unit) (p : list (list N)) :
  OS.mkdir_from base comps w = (r, w') → p ∈ dirs w → p ∈ dirs w'.
Proof.
  revert base w. induction comps as [|c cs IH]; intros base w; cbn.
  - by intros [= _ <-].
  - destruct (is_file w (base ++ [c])); [by intros [= _ <-]|].
    intros H Hp. apply (IH _ _ H).
    destruct (is_dir w (base ++ [c])); [done|]. cbn.
    apply elem_of_union. by right.
Qed.

(** With no file in the way the directory is there afterwards. *)
Lemma mkdir_from_ok (comps base : list (list N)) (w : World) :
  (∀ k, (0 < k ≤ length comps)%nat → is_file w (base ++ take k comps) = false) →
  is_dir w base = true →
  ∃ w', OS.mkdir_from base comps w = (Ok (), w')
        ∧ is_dir w' (base ++ comps) = true.
Proof.
  revert base w. induction comps as [|c cs IH]; intros base w Hfree Hbase; cbn.
  - exists w. by rewrite app_nil_r.
  - pose proof (Hfree 1%nat ltac:(cbn; lia)) as H1.
    cbn [take] in H1. rewrite take_0 in H1. rewrite H1.
    set (w1 := if is_dir w (base ++ [c]) then w else add_dir (base ++ [c]) w).
    assert (files w1 = files w) as Hf.
    { unfold w1. by destruct (is_dir w (base ++ [c])). }
    destruct (IH (base ++ [c]) w1) as (w' & Hw' & Hd).
    + intros k Hk. unfold is_file. rewrite Hf, <- app_assoc.
      apply (Hfree (S k)). cbn. lia.
    + unfold w1. destruct (is_dir w (base ++ [c])) eqn:E; [done|].
      unfold is_dir, add_dir; cbn. apply bool_decide_eq_true. right.
      apply elem_of_union. left. by apply elem_of_singleton.
    + exists w'. split; [done|]. by rewrite <- app_assoc in Hd.
Qed.

(** After the directories are made, all that leads to the last one is
    a directory. *)
Lemma mkdir_from_way (comps base : list (list N)) (w w' : World) (u : unit) :
  OS.mkdir_from base comps w = (Ok u, w') →
  ∀ k, (0 < k ≤ length comps)%nat → is_dir w' (base ++ take k comps) = true.
Proof.
  revert base w. induction comps as [|c cs IH]; intros base w; cbn.
  - intros _ k Hk. lia.
  - destruct (is_file w (base ++ [c])); [by intros [=]|].
    set (w1 := if is_dir w (base ++ [c]) then w else add_dir (base ++ [c]) w).
    intros H k Hk. destruct k as [|[|k]]; [lia| |].
    + cbn [take]. rewrite take_0.
      assert (base ++ [c] ∈ dirs w1) as Hin.
      { unfold w1. destruct (is_dir w (base ++ [c])) eqn:E.
        - apply bool_decide_eq_true in E as [E|E]; [by destruct base|done].
        - cbn. apply elem_of_union. left. by apply elem_of_singleton. }
      apply bool_decide_eq_true. right. by eapply mkdir_from_mono.
    + cbn [take].
      replace (base ++ c :: take (S k) cs) with ((base ++ [c]) ++ take (S k) cs)
        by (by rewrite <- app_assoc).
      apply (IH _ _ H). cbn [length] in Hk. lia.
Qed.

End FileSystem.

(** ** Running the script *)

Section Monad.

Lemma bind_ok_inv {A B} (m : M A) (f : A → M B) (w w' : World) (b : B) :
  (m ≫= f) w = (Ok b, w') → ∃ a w1, m w = (Ok a, w1) ∧ f a w1 = (Ok b, w').
Proof.
  unfold mbind, M_bind. destruct (m w) as [[a|e] w1]; [eauto|done].
Qed.

Lemma bind_ok {A B} (m : M A) (f : A → M B) (w w1 : World) (a : A) :
  m w = (Ok a, w1) → (m ≫= f) w = f a w1.
Proof. unfold mbind, M_bind. by intros ->. Qed.

Lemma bind_raise {A B} (m : M A) (f : A → M B) (w w1 : World) (e : exn) :
  m w = (Raise e, w1) → (m ≫= f) w = (Raise e, w1).
Proof. unfold mbind, M_bind. by intros ->. Qed.

Lemma mret_inv {A} (a b : A) (w w' : World) :
  mret (M := M) a w = (Ok b, w') → a = b ∧ w = w'.
Proof. by intros [= <- <-]. Qed.

Lemma print_inv (s : str) (w w' : World) (u : unit) :
  OS.print s w = (Ok u, w') → w' = put_stdout s w.
Proof. by intros [= <-]. Qed.

End Monad.

(** ** The places of the files a run writes *)

Section Outputs.

Import Path.

(** What comes after the prefix, when it has no slash and starts with a
    dash, goes into the last component of the joined path. *)
Lemma joinpath_last (out : list (list N)) (p : str) :
  ∃ pre final, ∀ s, slash_free s → head s = Some 45%N →
    joinpath out (p ++ s) = pre ++ [final ++ s].
Proof.
  destruct (segments_app [] p) as (init & final & H).
  exists (if startswith [SLASH] (p ++ [45%N])
          then filter (λ c : list N, c ≠ [] ∧ c ≠ [46%N]) init
          else out ++ filter (λ c : list N, c ≠ [] ∧ c ≠ [46%N]) init), final.
  intros s Hf Hh. unfold joinpath, parts.
  rewrite (absolute_app p s), H, filter_app by done.
  rewrite (filter_cons_True _ (final ++ s)).
  - destruct (startswith _ _); by rewrite ?app_assoc.
  - destruct s as [|d s]; [done|]. injection Hh as ->.
    split; [by destruct final|]. destruct final as [|? [|? ?]]; done.
Qed.

Lemma dash_not_dotdot (final s : str) :
  head s = Some 45%N → final ++ s ≠ DOTDOT.
Proof.
  intros Hh. destruct s as [|d s]; [done|]. injection Hh as ->.
  destruct final as [|a [|b [|c final]]]; [done|done| |done].
  cbn. intros E. injection E as _ _ E. done.
Qed.

(** Two names that differ after the prefix, in a part without slashes
    that starts with a dash, lead to different places. *)
Lemma located_suffix_inj (out q : list (list N)) (p s1 s2 : str) (w w' : World) :
  slash_free s1 → slash_free s2 →
  head s1 = Some 45%N → head s2 = Some 45%N →
  dirs w' = dirs w →
  OS.locate (joinpath out (p ++ s1)) w = Ok q →
  OS.locate (joinpath out (p ++ s2)) w' = Ok q →
  s1 = s2.
Proof.
  intros Hf1 Hf2 Hh1 Hh2 Hd. destruct (joinpath_last out p) as (pre & final & H).
  rewrite !H by done. unfold OS.locate. intros L1 L2.
  apply locate_from_last in L1 as (d & -> & Hall); [|by apply dash_not_dotdot].
  apply (locate_from_dirs _ [] _ _ _ w' w) in L2; [|done].
  rewrite (Hall [] (final ++ s2)) in L2 by by apply dash_not_dotdot.
  injection L2 as L2. apply app_inj_tail in L2 as [_ L2].
  by apply app_inv_head in L2.
Qed.

Lemma capture_suffix_free (timestamp : str) (capture_no frame_idx : Z) :
  slash_free timestamp →
  slash_free (capture_suffix timestamp capture_no frame_idx).
Proof. intros H. by apply capture_suffix_slash_free. Qed.

Lemma report_suffix_free (timestamp : str) :
  slash_free timestamp → slash_free (report_suffix timestamp).
Proof.
  intros H. unfold report_suffix, slash_free. rewrite !Forall_app.
  repeat split; try done; by_compute.
Qed.

Lemma capture_suffix_inj (timestamp : str) (no1 no2 idx1 idx2 : Z) :
  0 ≤ no1 → 0 ≤ no2 →
  capture_suffix timestamp no1 idx1 = capture_suffix timestamp no2 idx2 →
  no1 = no2.
Proof.
  intros H1 H2 E. unfold capture_suffix in E.
  apply app_inv_head, app_inv_head, app_inv_head in E.
  apply digits_prefix_unique in E; [|by apply format_d_digits..|done|done].
  by apply format_d_inj in E.
Qed.

Lemma report_suffix_fresh (timestamp : str) (capture_no frame_idx : Z) :
  report_suffix timestamp ≠ capture_suffix timestamp capture_no frame_idx.
Proof.
  unfold report_suffix, capture_suffix. intros E.
  apply app_inv_head, app_inv_head in E. discriminate.
Qed.

Lemma capture_path_suffix (args : Namespace) (out : list (list N))
    (timestamp : str) (capture_no frame_idx : Z) :
  capture_path args out timestamp capture_no frame_idx
  = joinpath out (prefix args ++ capture_suffix timestamp capture_no frame_idx).
Proof. reflexivity. Qed.

Lemma report_path_suffix (p : str) (out : list (list N)) (timestamp : str) :
  joinpath out (report_name p timestamp)
  = joinpath out (p ++ report_suffix timestamp).
Proof. reflexivity. Qed.

(** In one world two captures with different numbers are at different
    places, and neither is at the place of the report. *)
Lemma located_captures_distinct (args : Namespace) (out q : list (list N))
    (timestamp : str) (no1 no2 idx1 idx2 : Z) (w w' : World) :
  slash_free timestamp → 0 ≤ no1 → 0 ≤ no2 → dirs w' = dirs w →
  OS.locate (capture_path args out timestamp no1 idx1) w = Ok q →
  OS.locate (capture_path args out timestamp no2 idx2) w' = Ok q →
  no1 = no2.
Proof.
  intros Ht H1 H2 Hd L1 L2. rewrite capture_path_suffix in L1, L2.
  pose proof (located_suffix_inj _ _ _ _ _ _ _ (capture_suffix_free _ no1 idx1 Ht)
                (capture_suffix_free _ no2 idx2 Ht) eq_refl eq_refl Hd L1 L2) as E.
  by apply capture_suffix_inj in E.
Qed.

Lemma located_report_fresh (args : Namespace) (out q : list (list N))
    (timestamp : str) (capture_no frame_idx : Z) (w w' : World) :
  slash_free timestamp → dirs w' = dirs w →
  OS.locate (joinpath out (report_name (prefix args) timestamp)) w = Ok q →
  OS.locate (capture_path args out timestamp capture_no frame_idx) w' ≠ Ok q.
Proof.
  intros Ht Hd L1 L2. rewrite capture_path_suffix in L2.
  rewrite report_path_suffix in L1.
  pose proof (located_suffix_inj _ _ _ _ _ _ _ (report_suffix_free _ Ht)
                (capture_suffix_free _ capture_no frame_idx Ht)
                eq_refl eq_refl Hd L1 L2) as E.
  by apply report_suffix_fresh in E.
Qed.

End Outputs.

Section CaptureLoop.

Context (args : Namespace) (out : list (list N)) (timestamp : str).
Context (frames : list (list N)).
Hypothesis timestamp_slash_free : slash_free timestamp.

Lemma capture_loop_inv (indices : list Z) (capture_no : Z)
    (acc entries : list capture_entry) (w w' : World) :
  0 ≤ capture_no →
  capture_loop args out timestamp frames capture_no indices acc w
  = (Ok entries, w') →
  dirs w' = dirs w ∧ clock w' = clock w
  ∧ stdout w' = stdout w ∧ stderr w' = stderr w
  ∧ (∀ p, (∀ j idx, indices !! j = Some idx →
             OS.locate (capture_path args out timestamp
                          (capture_no + Z.of_nat j) idx) w ≠ Ok p) →
          files w' !! p = files w !! p)
  ∧ ∃ new, entries = acc ++ new ∧ length new = length indices
      ∧ ∀ j idx, indices !! j = Some idx →
          ∃ text q, getitem frames idx = Ok text
            ∧ OS.locate (capture_path args out timestamp
                           (capture_no + Z.of_nat j) idx) w = Ok q
            ∧ files w' !! q = Some (text ++ [LF])
            ∧ new !! j
              = Some (mkEntry idx
                        (capture_path args out timestamp
                           (capture_no + Z.of_nat j) idx)
                        (preview_of (lines_per_capture args) text)).
Proof.
  revert capture_no acc w.
  induction indices as [|idx rest IH]; intros capture_no acc w Hno; cbn [capture_loop].
  - intros [= <- <-]. repeat split; try done.
    exists []. by rewrite app_nil_r.
  - intros H. apply bind_ok_inv in H as (text & w0 & Hget & H).
    unfold lift in Hget. injection Hget as Hget <-.
    apply bind_ok_inv in H as (u & w1 & Hw & H).
    fold (capture_path args out timestamp capture_no idx) in *.
    apply write_text_inv in Hw as (q0 & Hq0 & Hnd & ->).
    apply IH in H as (Hd & Hc & Ho & He & Hframe & new & -> & Hlen & Hnew); [|lia].
    cbn in Hd, Hc, Ho, He.
    assert (∀ j idx', rest !! j = Some idx' →
              OS.locate (capture_path args out timestamp
                           (capture_no + 1 + Z.of_nat j) idx')
                (put_file q0 (text ++ [LF]) w) ≠ Ok q0) as Hfresh.
    { intros j idx' _ E.
      pose proof (located_captures_distinct args out q0 timestamp capture_no
                    (capture_no + 1 + Z.of_nat j) idx idx' w
                    (put_file q0 (text ++ [LF]) w) timestamp_slash_free
                    ltac:(lia) ltac:(lia) eq_refl Hq0 E).
      lia. }
    repeat split; try done.
    + intros p Hp. rewrite Hframe.
      * cbn. apply lookup_insert_ne. intros ->.
        apply (Hp 0%nat idx eq_refl). by rewrite Z.add_0_r.
      * intros j idx' Hj E. apply locate_put_file in E.
        apply (Hp (S j) idx' Hj).
        by replace (capture_no + Z.of_nat (S j)) with (capture_no + 1 + Z.of_nat j) by lia.
    + eexists (_ :: new). split; [by rewrite <- app_assoc|]. split; [cbn; lia|].
      intros [|j] idx' Hj.
      * injection Hj as <-. exists text, q0. rewrite Z.add_0_r.
        split_and!; try done. rewrite Hframe by done. cbn. apply lookup_insert_eq.
      * destruct (Hnew j idx' Hj) as (text' & q & Hg & Hl & Hf & Hn).
        exists text', q.
        replace (capture_no + Z.of_nat (S j)) with (capture_no + 1 + Z.of_nat j) by lia.
        split_and!; try done. by apply locate_put_file in Hl.
Qed.

End CaptureLoop.

Section PickIndicesGeneral.

Lemma round_half_even_nonneg (a b : Z) :
  0 ≤ a → 0 < b → 0 ≤ round_half_even a b.
Proof.
  intros Ha Hb. rewrite <- (round_half_even_exact 0 b Hb) at 1.
  apply round_half_even_mono; lia.
Qed.

Lemma sample_nonneg (a b : Z) (x : float) :
  0 ≤ a → 0 < b → true_divide a b = Ok x → 0 ≤ round x.
Proof.
  intros Ha Hb. unfold true_divide.
  destruct (Z.eqb_spec b 0) as [|_]; [lia|].
  replace (b <? 0) with false by (symmetry; apply Z.ltb_ge; lia).
  replace (a <? 0) with false by (symmetry; apply Z.ltb_ge; lia).
  cbn [xorb]. destruct (Z.eqb_spec a 0) as [Ha0|Ha0].
  { intros [= <-]. done. }
  rewrite (Z.abs_eq a), (Z.abs_eq b) by lia.
  set (e := Z.max _ _). destruct (_ && _); [done|]. intros [= <-].
  assert (0 ≤ quot_round a b e) as Hm.
  { apply round_half_even_nonneg.
    - apply Z.mul_nonneg_nonneg; [lia|]. apply Z.pow_nonneg. lia.
    - apply Z.mul_pos_pos; [lia|]. apply Z.pow_pos_nonneg; lia. }
  unfold round; cbn [fneg fman fexp]. destruct (Z.leb_spec 0 e).
  - apply Z.mul_nonneg_nonneg; [done|]. apply Z.pow_nonneg. lia.
  - apply round_half_even_nonneg; [done|]. apply Z.pow_pos_nonneg; lia.
Qed.

Lemma mapM_result_inv {A B} (f : A → result B) (l : list A) (k : list B) :
  mapM f l = Ok k → Forall2 (λ x y, f x = Ok y) l k.
Proof.
  revert k. induction l as [|x l IH]; intros k; cbn.
  - intros [= <-]. constructor.
  - destruct (f x) as [y|] eqn:Ey; cbn; [|done].
    destruct (mapM f l) as [k'|]; cbn; [|done].
    intros [= <-]. constructor; [done|]. by apply IH.
Qed.

(** Whatever the arguments, a result is strictly increasing and holds
    no negative index. *)
Lemma pick_indices_sorted (total max_captures : Z) (l : list Z) :
  pick_indices total max_captures = Ok l →
  StronglySorted Z.lt l ∧ Forall (λ i, 0 ≤ i) l.
Proof.
  unfold pick_indices, pick_indices_with.
  destruct (Z.leb_spec total 0); [intros [= <-]; split; constructor|].
  destruct (_ || _) eqn:E1.
  { intros [= <-]. split; by repeat constructor. }
  apply orb_false_iff in E1 as [E1 E2].
  apply Z.leb_gt in E1. apply Z.eqb_neq in E2.
  destruct (Z.leb_spec total max_captures).
  { intros [= <-]. split; [apply seqZ_increasing|]. apply Forall_seqZ. lia. }
  destruct (mapM _ _) as [k|] eqn:Ek; cbn; [|done]. intros [= <-].
  destruct (sorted_elements_spec (list_to_set k)) as (Hs & Hin & _).
  split; [done|]. apply Forall_forall. intros y Hy.
  apply Hin, elem_of_list_to_set, list_elem_of_lookup in Hy as [j Hj].
  apply mapM_result_inv in Ek.
  destruct (Forall2_lookup_r _ _ _ _ _ Ek Hj) as (i & Hi & Hf).
  apply list_elem_of_lookup_2, elem_of_seqZ in Hi.
  destruct (true_divide _ _) as [x|] eqn:Ex; cbn in Hf; [|done].
  injection Hf as <-. eapply sample_nonneg; [| |done]; nia.
Qed.

(** One index, 0, when one capture at most is asked for or one frame
    is there. *)
Lemma pick_indices_one (n m : Z) :
  1 ≤ n → m ≤ 1 ∨ n = 1 → pick_indices n m = Ok [0].
Proof.
  intros Hn Hc. unfold pick_indices, pick_indices_with.
  destruct (Z.leb_spec n 0); [lia|].
  destruct (Z.leb_spec m 1), (Z.eqb_spec n 1); try done; lia.
Qed.

(** For a frame count between 1 and [2^53] the call succeeds, every
    index is that of a frame, and there are at least one and at most
    [max(1, max_captures)] of them. *)
Lemma pick_indices_in_range (total max_captures : Z) :
  0 < total → total ≤ 2 ^ 53 →
  ∃ l, pick_indices total max_captures = Ok l
       ∧ Forall (λ i, 0 ≤ i < total) l
       ∧ 1 ≤ Z.of_nat (length l) ≤ Z.max 1 max_captures.
Proof.
  intros Ht Hbig.
  destruct (decide (max_captures ≤ 1 ∨ total = 1)) as [Hc|Hc].
  - exists [0]. rewrite pick_indices_one by (done || lia).
    split_and!; [done|repeat constructor; lia|cbn; lia|cbn; lia].
  - assert (∃ l, pick_indices total max_captures = Ok l
                 ∧ selection_ok total max_captures l)
      as (l & Hl & _ & Hr & Hlen & Hhead & _).
    { unfold pick_indices, pick_indices_with.
      destruct (Z.leb_spec total 0); [lia|].
      destruct (Z.leb_spec max_captures 1); [lia|].
      destruct (Z.eqb_spec total 1); [lia|]. cbn [orb].
      destruct (Z.leb_spec total max_captures).
      - eexists; split; [done|]. apply range_selection_ok; lia.
      - destruct (sampled_selection_ok total max_captures) as (k & -> & Hok);
          [lia..|].
        eexists; split; [done|]. done. }
    exists l. split_and!; [done|done| |lia].
    destruct l; [done|]. cbn [length]. lia.
Qed.

End PickIndicesGeneral.

Lemma getitem_lookup {A} (l : list A) (i : Z) (x : A) :
  0 ≤ i → getitem l i = Ok x → l !! Z.to_nat i = Some x.
Proof.
  intros Hi. unfold getitem.
  replace (i <? 0) with false by (symmetry; apply Z.ltb_ge; lia).
  destruct (_ || _); [done|].
  destruct (l !! Z.to_nat i); [|done]. by intros [= ->].
Qed.

Lemma file_at_intro (w : World) (p q : list (list N)) (text : str) :
  OS.locate p w = Ok q → files w !! q = Some text → file_at w p text.
Proof.
  intros Hl Hf. exists q. split_and!; [done|done|].
  intros Hdd. by apply (locate_from_plain _ [] _ _ _ Hdd) in Hl.
Qed.

Section MainRun.

Context (resolve : list N → list (list N)) (args : Namespace).

Let input_path := resolve (input_file args).
Let out := resolve (output_dir args).

(** What a run of [main] that returns has done. *)
Lemma main_inv (w w' : World) (status : Z) :
  main resolve args w = (Ok status, w') →
  ∃ text indices entries,
    let frames := select_frames (OS.universal_newlines text) in
    let timestamp := strftime_compact (clock w) in
    let report_path := Path.joinpath out (report_name (prefix args) timestamp) in
    files w !! input_path = Some text
    ∧ pick_indices (Z.of_nat (length frames)) (Z.max 1 (max_captures args))
      = Ok indices
    ∧ status = 0
    ∧ stdout w' = stdout w ++ [Path.to_str report_path]
    ∧ stderr w' = stderr w
    ∧ file_at w' report_path
        (join [LF] (report_lines (isoformat (clock w)) input_path
                                 frames entries))
    ∧ length entries = length indices
    ∧ (∀ j idx, indices !! j = Some idx →
        ∃ frame_text,
          0 ≤ idx
          ∧ frames !! Z.to_nat idx = Some frame_text
          ∧ file_at w' (capture_path args out timestamp (1 + Z.of_nat j) idx)
              (frame_text ++ [LF])
          ∧ entries !! j
            = Some (mkEntry idx
                      (capture_path args out timestamp (1 + Z.of_nat j) idx)
                      (preview_of (lines_per_capture args) frame_text)))
    ∧ (∀ p, OS.locate report_path w' ≠ Ok p →
            (∀ j idx, indices !! j = Some idx →
               OS.locate (capture_path args out timestamp (1 + Z.of_nat j) idx) w'
               ≠ Ok p) →
            files w' !! p = files w !! p)
    ∧ (∀ p, p ∈ dirs w' → p ∈ dirs w ∨ ∃ k, p = take k out).
Proof.
  unfold main. fold input_path out. intros H.
  apply bind_ok_inv in H as (found & w0 & Hex & H).
  unfold OS.path_exists in Hex. injection Hex as Hfound <-.
  destruct found; cbn [negb] in H; [|done].
  apply bind_ok_inv in H as (u & w1 & Hmk & H).
  apply mkdir_from_frame in Hmk as (Hf1 & Hc1 & Ho1 & He1 & Hd1).
  apply bind_ok_inv in H as (now & w1' & Hnow & H).
  unfold OS.datetime_now in Hnow. injection Hnow as <- <-.
  apply bind_ok_inv in H as (raw & w1' & Hread & H).
  unfold OS.read_text in Hread. destruct (is_dir w1 input_path); [done|].
  destruct (files w1 !! input_path) as [text|] eqn:Htext; [|done].
  injection Hread as <- <-.
  apply bind_ok_inv in H as (indices & w1' & Hpick & H).
  unfold lift in Hpick. injection Hpick as Hpick <-.
  apply bind_ok_inv in H as (entries & w2 & Hloop & H).
  apply capture_loop_inv in Hloop
    as (Hd2 & Hc2 & Ho2 & He2 & Hframe & new & -> & Hlen & Hnew);
    [|apply strftime_slash_free|lia].
  apply bind_ok_inv in H as (u' & w3 & Hw & H).
  apply write_text_inv in Hw as (qr & Hqr & Hndr & ->).
  apply bind_ok_inv in H as (u'' & w4 & Hp & H).
  apply print_inv in Hp. apply mret_inv in H as [<- <-]. subst w4.
  rewrite Hc1 in *. rewrite Hf1 in Htext.
  destruct (pick_indices_sorted _ _ _ Hpick) as [_ Hnn].
  set (w' := put_stdout _ _).
  assert (dirs w' = dirs w1) as Hdw by done.
  assert (dirs w' = dirs w2) as Hdw2 by done.
  exists text, indices, new. cbn zeta. split_and!; try done.
  - cbn [stdout put_stdout put_file w']. by rewrite Ho2, Ho1.
  - cbn [stderr put_stdout put_file w']. by rewrite He2, He1.
  - apply (file_at_intro _ _ qr).
    + by apply (locate_dirs _ _ w2 w').
    + cbn [files put_stdout put_file w']. apply lookup_insert_eq.
  - intros j idx Hj. destruct (Hnew j idx Hj) as (frame_text & q & Hg & Hl & Hfile & He).
    assert (0 ≤ idx) as Hidx.
    { rewrite Forall_forall in Hnn. by eapply Hnn, list_elem_of_lookup_2. }
    exists frame_text. split_and!; try done.
    + by apply getitem_lookup.
    + apply (file_at_intro _ _ q).
      * by apply (locate_dirs _ _ w1 w').
      * cbn [files put_stdout put_file w'].
        rewrite lookup_insert_ne; [done|]. intros ->.
        apply (located_report_fresh args out q _ (1 + Z.of_nat j) idx w2 w1
                 (strftime_slash_free _) (eq_sym Hd2) Hqr Hl).
  - intros p Hrp Hcap. cbn [files put_stdout put_file w'].
    rewrite lookup_insert_ne.
    + rewrite Hframe; [by rewrite Hf1|]. intros j idx Hj E.
      apply (Hcap j idx Hj). by apply (locate_dirs _ _ w1 w').
    + intros ->. apply Hrp. by apply (locate_dirs _ _ w2 w').
  - intros p Hp. cbn [dirs put_stdout put_file w'] in Hp. rewrite Hd2 in Hp.
    destruct (Hd1 p Hp) as [?|(k & _ & ->)]; [by left|right; by exists k].
Qed.

End MainRun.

Section Success.

Lemma entry_ne (out : list (list N)) (name : str) : out ++ [name] ≠ out.
Proof.
  intros E. apply (f_equal length) in E. rewrite length_app in E. cbn in E. lia.
Qed.

Lemma getitem_ok {A} (l : list A) (i : Z) :
  0 ≤ i < Z.of_nat (length l) → ∃ x, getitem l i = Ok x.
Proof.
  intros Hi. unfold getitem.
  replace (i <? 0) with false by (symmetry; apply Z.ltb_ge; lia).
  replace (i <? 0) with false by (symmetry; apply Z.ltb_ge; lia).
  replace (Z.of_nat (length l) <=? i) with false
    by (symmetry; apply Z.leb_gt; lia).
  cbn [orb]. destruct (lookup_lt_is_Some_2 l (Z.to_nat i)) as [x ->]; [lia|].
  eauto.
Qed.

(** An entry of a directory that is there, under a name other than
    [".."], is where its path leads. *)
Lemma locate_entry (out : list (list N)) (name : str) (w : World) :
  Path.DOTDOT ∉ out → name ≠ Path.DOTDOT →
  (∀ k, (0 < k ≤ length out)%nat → is_dir w (take k out) = true) →
  OS.locate (out ++ [name]) w = Ok (out ++ [name]).
Proof.
  intros Hdd Hn Hway. unfold OS.locate.
  rewrite locate_from_ok; [done| |].
  - intros [H|H]%elem_of_app; [done|].
    by apply list_elem_of_singleton in H.
  - intros k Hk. rewrite length_app in Hk. cbn in Hk.
    cbn [app]. rewrite take_app_le by lia. apply Hway. lia.
Qed.

Context (args : Namespace) (out : list (list N)) (timestamp : str).
Context (frames : list (list N)).
Hypothesis timestamp_slash_free : slash_free timestamp.
Hypothesis prefix_slash_free : slash_free (prefix args).

Lemma plain_name (suffix : str) :
  slash_free suffix → head suffix = Some 45%N →
  Path.joinpath out (prefix args ++ suffix) = out ++ [prefix args ++ suffix].
Proof.
  intros Hs Hh. apply joinpath_plain.
  - by apply Forall_app.
  - destruct suffix; [done|]. by destruct (prefix args).
  - destruct suffix as [|c suffix]; [done|]. injection Hh as ->.
    destruct (prefix args) as [|? [|? ?]]; done.
Qed.

Lemma capture_path_plain (capture_no frame_idx : Z) :
  capture_path args out timestamp capture_no frame_idx
  = out ++ [capture_name (prefix args) timestamp capture_no frame_idx].
Proof.
  unfold capture_path, capture_name. apply plain_name; [|done].
  by apply capture_suffix_slash_free.
Qed.

Lemma report_path_plain :
  Path.joinpath out (report_name (prefix args) timestamp)
  = out ++ [report_name (prefix args) timestamp].
Proof.
  unfold report_name. apply plain_name; [|done].
  unfold slash_free. rewrite !Forall_app. split_and!; try done; by_compute.
Qed.

Lemma capture_loop_ok (indices : list Z) (capture_no : Z)
    (acc : list capture_entry) (w : World) :
  Forall (λ i, 0 ≤ i < Z.of_nat (length frames)) indices →
  Path.DOTDOT ∉ out →
  (∀ k, (0 < k ≤ length out)%nat → is_dir w (take k out) = true) →
  (∀ suffix, is_dir w (out ++ [prefix args ++ lit "-" ++ timestamp ++ suffix])
             = false) →
  ∃ entries w',
    capture_loop args out timestamp frames capture_no indices acc w
    = (Ok entries, w').
Proof.
  intros Hin. revert capture_no acc w.
  induction Hin as [|idx rest Hidx _ IH]; intros capture_no acc w Hdd Hway Hsub;
    cbn [capture_loop].
  - by eexists _, _.
  - destruct (getitem_ok frames idx Hidx) as [text Hget].
    rewrite (bind_ok _ _ w w text) by (unfold lift; by rewrite Hget).
    fold (capture_path args out timestamp capture_no idx).
    rewrite capture_path_plain.
    erewrite bind_ok; cycle 1.
    { apply write_text_ok.
      - apply locate_entry; [done| |done].
        apply (dash_not_dotdot (prefix args) (capture_suffix timestamp capture_no idx)).
        done.
      - apply Hsub. }
    by apply IH.
Qed.

End Success.

Lemma select_frames_nonempty (raw : str) : select_frames raw ≠ [].
Proof. unfold select_frames. by destruct (kept_frames raw). Qed.

Section MainSucceeds.

Context (resolve : list N → list (list N)) (args : Namespace).

(** In a world in which the report can be written, [main] returns 0. *)
Lemma main_ok (w : World) :
  can_report resolve args w → ∃ w', main resolve args w = (Ok 0, w').
Proof.
  intros ((text & Htext & Hbig) & Hnd & Hway & Hdd & Hsub & Hpre). unfold main.
  set (input_path := resolve (input_file args)) in *.
  set (out := resolve (output_dir args)) in *.
  erewrite bind_ok; [|by unfold OS.path_exists].
  assert (is_file w input_path = true) as Hfile.
  { unfold is_file. apply bool_decide_eq_true. by rewrite Htext. }
  rewrite Hfile. cbn [orb negb].
  destruct (mkdir_from_ok out [] w) as (w1 & Hmk & Hout).
  { intros k _. apply Hway. }
  { done. }
  pose proof (mkdir_from_frame _ _ _ _ _ Hmk) as (Hf1 & Hc1 & Ho1 & He1 & Hd1).
  pose proof (mkdir_from_way _ _ _ _ _ Hmk) as Hway1. cbn [app] in Hway1.
  erewrite bind_ok; [|exact Hmk].
  erewrite bind_ok; [|by unfold OS.datetime_now].
  assert (∀ p, is_dir w p = false → (∀ k, p ≠ take k out) → is_dir w1 p = false)
    as Hdir.
  { intros p Hp Hk. unfold is_dir in *. apply bool_decide_eq_false.
    apply bool_decide_eq_false in Hp. intros [->|Hin]; [by apply Hp; left|].
    destruct (Hd1 p Hin) as [?|(k & _ & ->)]; [apply Hp; by right|].
    by apply (Hk k). }
  erewrite bind_ok; cycle 1.
  { unfold OS.read_text. rewrite Hdir, Hf1, Htext; [done|done|].
    intros k E. specialize (Hway k). rewrite <- E in Hway. congruence. }
  set (frames := select_frames (OS.universal_newlines text)) in *.
  destruct (pick_indices_in_range (Z.of_nat (length frames))
              (Z.max 1 (max_captures args))) as (indices & Hpick & Hrange & _).
  { pose proof (select_frames_nonempty (OS.universal_newlines text)).
    fold frames in H. destruct frames; [done|]. cbn. lia. }
  { done. }
  erewrite bind_ok; [|unfold lift; by rewrite Hpick].
  assert (∀ suffix,
            is_dir w1 (out ++ [prefix args ++ lit "-" ++ strftime_compact (clock w1)
                               ++ suffix]) = false) as Hsub1.
  { intros suffix. rewrite Hc1. apply Hdir; [done|]. intros k E.
    apply (f_equal length) in E. rewrite length_app, length_take in E.
    cbn in E. lia. }
  destruct (capture_loop_ok args out (strftime_compact (clock w1)) frames
              (strftime_slash_free _) Hpre indices 1 [] w1 Hrange Hdd Hway1 Hsub1)
    as (entries & w2 & Hloop).
  erewrite bind_ok; [|exact Hloop].
  apply capture_loop_inv in Hloop as (Hd2 & _ & _ & _ & _ & _);
    [|apply strftime_slash_free|lia].
  rewrite report_path_plain by (done || apply strftime_slash_free).
  erewrite bind_ok; cycle 1.
  { apply write_text_ok.
    - apply locate_entry; [done| |].
      + apply (dash_not_dotdot (prefix args)
                 (report_suffix (strftime_compact (clock w1)))). done.
      + intros k Hk. rewrite (is_dir_dirs w1 w2) by done. by apply Hway1.
    - rewrite (is_dir_dirs w1 w2) by done. apply (Hsub1 (lit ".md")). }
  erewrite bind_ok; [|by unfold OS.print]. by eexists.
Qed.

End MainSucceeds.

(** ** The script as a whole *)

(** The sample world lets the report be written, whatever the number
    of captures and of preview lines asked for. *)
Lemma sample_world_can_report (text : str) (max_captures lines_per_capture : Z) :
  Z.of_nat (length (select_frames (OS.universal_newlines text))) ≤ 2 ^ 53 →
  can_report root_resolve
    (mkNamespace (lit "in.txt") (lit "out") (lit "ui-report")
       max_captures lines_per_capture)
    (one_file_world (lit "in.txt") text).
Proof.
  intros Hbig. unfold can_report. split_and!.
  - exists text. split; [by vm_compute|done].
  - by vm_compute.
  - intros [|[|k]]; by vm_compute.
  - by_compute.
  - intros suffix. apply bool_decide_eq_false. intros [H|H]; [done|].
    by apply elem_of_empty in H.
  - by_compute.
Qed.

(** C4: when the input path does not exist, the script exits with a
    status other than 0, its last line on the error stream names the
    resolved input path, and files, directories and standard output are
    as they were. *)
Theorem missing_input_aborts (resolve : list N → list (list N))
    (args : Namespace) (w : World) :
  OS.path_exists (resolve (input_file args)) w = (Ok false, w) →
  let message :=
    lit "Input file not found: " ++ Path.to_str (resolve (input_file args)) in
  main resolve args w = (Raise (FileNotFoundError message), w)
  ∧ ∃ status w',
      script resolve args w = (status, w') ∧ status ≠ 0
      ∧ files w' = files w ∧ dirs w' = dirs w ∧ stdout w' = stdout w
      ∧ stderr w' = stderr w ++ [lit "FileNotFoundError: " ++ message].
Proof.
  intros Hex message.
  assert (main resolve args w = (Raise (FileNotFoundError message), w)) as Hmain.
  { unfold main. by rewrite (bind_ok _ _ w w false). }
  split; [done|]. unfold script. rewrite Hmain.
  eexists _, _. split; [done|]. by split_and!.
Qed.

Lemma missing_input_aborts_witness :
  script root_resolve (sample_args 5) (one_file_world (lit "other.txt") [])
  = (1, put_stderr (lit "FileNotFoundError: Input file not found: /in.txt")
          (one_file_world (lit "other.txt") [])).
Proof.
  destruct (missing_input_aborts root_resolve (sample_args 5)
              (one_file_world (lit "other.txt") []))
    as (_ & status & w' & Hs & _); [by vm_compute|].
  by vm_compute.
Defined.

(** ** The report *)

Section ReportLines.

Lemma length_entry_lines (e : capture_entry) : length (entry_lines e) = 7%nat.
Proof. done. Qed.

Lemma length_entry_blocks (entries : list capture_entry) :
  length (concat (entry_lines <$> entries)) = (7 * length entries)%nat.
Proof.
  induction entries as [|e entries IH]; [done|].
  rewrite fmap_cons, concat_cons, length_app, IH, length_entry_lines.
  cbn [length]. lia.
Qed.

(** Line [i] of the block of entry [j]. *)
Lemma lookup_entry_blocks (entries : list capture_entry) (j i : nat)
    (e : capture_entry) :
  entries !! j = Some e → (i < 7)%nat →
  concat (entry_lines <$> entries) !! (7 * j + i)%nat = entry_lines e !! i.
Proof.
  revert j. induction entries as [|e0 entries IH]; intros j Hj Hi; [done|].
  rewrite fmap_cons, concat_cons. destruct j as [|j].
  - injection Hj as ->.
    by rewrite lookup_app_l by (rewrite length_entry_lines; lia).
  - rewrite lookup_app_r by (rewrite length_entry_lines; lia).
    rewrite length_entry_lines.
    replace (7 * S j + i - 7)%nat with (7 * j + i)%nat by lia. by apply IH.
Qed.

Lemma lookup_report_lines (generated_at : str) (input_path : list (list N))
    (frames : list (list N)) (entries : list capture_entry) (j i : nat)
    (e : capture_entry) :
  entries !! j = Some e → (i < 7)%nat →
  report_lines generated_at input_path frames entries !! (9 + 7 * j + i)%nat
  = entry_lines e !! i.
Proof.
  intros Hj Hi. unfold report_lines.
  rewrite lookup_app_r by (cbn [length]; lia). cbn [length].
  replace (9 + 7 * j + i - 9)%nat with (7 * j + i)%nat by lia.
  by apply lookup_entry_blocks.
Qed.

End ReportLines.

(** ** Lines *)

Section LinesOf.

Lemma splitlines_go_lines (cur s : str) :
  boundary_free cur → lines_of (reverse cur ++ s) (splitlines_go cur s).
Proof.
  revert cur. induction s as [s IH] using (induction_ltof1 _ length).
  unfold ltof in IH. intros cur Hcur. destruct s as [|c s']; cbn [splitlines_go].
  - rewrite app_nil_r. destruct cur as [|a cur]; [constructor|].
    apply lines_of_last; [|by apply Forall_reverse].
    intros E. apply (f_equal length) in E. rewrite length_reverse in E. done.
  - destruct (is_linebreak c) eqn:Ec.
    + destruct s' as [|d s''].
      { apply lines_of_break; [by apply Forall_reverse|done| |constructor].
        by intros [_ ?]. }
      destruct ((c =? CR)%N && (d =? LF)%N) eqn:E.
      * apply andb_true_iff in E as [->%N.eqb_eq ->%N.eqb_eq].
        apply (lines_of_crlf (reverse cur) s''); [by apply Forall_reverse|].
        apply (IH s'' ltac:(cbn; lia) []). constructor.
      * apply lines_of_break; [by apply Forall_reverse|done| |].
        -- intros [-> [= ->]]. done.
        -- apply (IH (d :: s'') ltac:(cbn; lia) []). constructor.
    + replace (reverse cur ++ c :: s') with (reverse (c :: cur) ++ s')
        by (by rewrite reverse_cons, <- app_assoc).
      apply IH; [cbn; lia|]. by constructor.
Qed.

(** [splitlines] gives the lines of a text. *)
Lemma splitlines_lines (s : str) : lines_of s (splitlines s).
Proof. apply (splitlines_go_lines [] s). constructor. Qed.

(** A text is cut at its first line boundary in one way only. *)
Lemma first_boundary (l1 l2 r1 r2 : str) (c1 c2 : N) :
  boundary_free l1 → boundary_free l2 →
  is_linebreak c1 = true → is_linebreak c2 = true →
  l1 ++ c1 :: r1 = l2 ++ c2 :: r2 → l1 = l2 ∧ c1 = c2 ∧ r1 = r2.
Proof.
  intros H1. revert l2. induction H1 as [|a l1 Ha _ IH]; intros l2 H2 Hc1 Hc2 E.
  - destruct H2 as [|b l2 Hb _]; [by injection E as -> ->|].
    injection E as -> _. congruence.
  - destruct H2 as [|b l2 Hb H2].
    + injection E as -> _. congruence.
    + injection E as -> E. destruct (IH l2 H2 Hc1 Hc2 E) as (-> & -> & ->). done.
Qed.

Lemma no_boundary (l l2 r : str) (c : N) :
  boundary_free l → is_linebreak c = true → l ≠ l2 ++ c :: r.
Proof.
  intros Hl Hc ->. apply Forall_app in Hl as [_ Hl].
  apply Forall_cons in Hl as [Hl _]. congruence.
Qed.

(** A text has its lines in one way only. *)
Lemma lines_of_unique (s : str) (ls1 ls2 : list (list N)) :
  lines_of s ls1 → lines_of s ls2 → ls1 = ls2.
Proof.
  intros H1. revert ls2.
  induction H1 as [|l Hne Hl|l rest ls Hl H1 IH|l rest c ls Hl Hc Hcr H1 IH];
    intros ls2 H2.
  - inversion H2 as [|l' ? ? E|l' ? ? ? ? E|l' ? ? ? ? ? ? ? E]; subst; try done.
    + by destruct l'.
    + by destruct l'.
  - remember l as s eqn:Es in H2.
    destruct H2 as [|l' Hne' Hl'|l' rest' ls' Hl' H2|l' rest' c' ls' Hl' Hc' Hcr' H2].
    + done.
    + by subst.
    + destruct (no_boundary l l' (LF :: rest') CR Hl eq_refl (eq_sym Es)).
    + destruct (no_boundary l l' rest' c' Hl Hc' (eq_sym Es)).
  - remember (l ++ [CR; LF] ++ rest) as s eqn:Es in H2.
    destruct H2 as [|l' Hne' Hl'|l' rest' ls' Hl' H2|l' rest' c' ls' Hl' Hc' Hcr' H2].
    + by destruct l.
    + destruct (no_boundary l' l (LF :: rest) CR Hl' eq_refl Es).
    + apply (first_boundary l' l (LF :: rest') (LF :: rest) CR CR) in Es
        as (-> & _ & [= ->]); [|done..].
      f_equal. by apply IH.
    + apply (first_boundary l' l rest' (LF :: rest) c' CR) in Es
        as (-> & -> & ->); [|done..].
      destruct Hcr'. done.
  - remember (l ++ c :: rest) as s eqn:Es in H2.
    destruct H2 as [|l' Hne' Hl'|l' rest' ls' Hl' H2|l' rest' c' ls' Hl' Hc' Hcr' H2].
    + by destruct l.
    + destruct (no_boundary l' l rest c Hl' Hc Es).
    + apply (first_boundary l' l (LF :: rest') rest CR c) in Es
        as (-> & <- & <-); [|done..].
      destruct Hcr. done.
    + apply (first_boundary l' l rest' rest c' c) in Es
        as (-> & -> & ->); [|done..].
      f_equal. by apply IH.
Qed.

(** The preview is the first lines of the frame, and nothing else is. *)
Lemma preview_first_lines (lines_per_capture : Z) (frame_text : str) :
  first_lines (Z.max 1 lines_per_capture) frame_text
    (preview_of lines_per_capture frame_text).
Proof. exists (splitlines frame_text). split; [apply splitlines_lines|done]. Qed.

Lemma first_lines_unique (k : Z) (s p1 p2 : str) :
  first_lines k s p1 → first_lines k s p2 → p1 = p2.
Proof.
  intros (l1 & H1 & ->) (l2 & H2 & ->).
  by rewrite (lines_of_unique _ _ _ H1 H2).
Qed.

End LinesOf.

(** C7: in the report of a run that returns, the block of every capture
    holds, between its two fence lines, exactly the first
    [max(1, lines_per_capture)] lines of the text of the frame at the
    index of the capture, joined by newlines, and nothing more; the
    lines of a text being what is left of it when it is cut at its line
    boundaries. *)
Theorem report_previews (resolve : list N → list (list N))
    (args : Namespace) (w w' : World) (status : Z) :
  main resolve args w = (Ok status, w') →
  ∃ text indices lines,
    let frames := select_frames (OS.universal_newlines text) in
    files w !! resolve (input_file args) = Some text
    ∧ pick_indices (Z.of_nat (length frames)) (Z.max 1 (max_captures args))
      = Ok indices
    ∧ file_at w'
        (Path.joinpath (resolve (output_dir args))
           (report_name (prefix args) (strftime_compact (clock w))))
        (join [LF] lines)
    ∧ length lines = (9 + 7 * length indices)%nat
    ∧ ∀ j idx, indices !! j = Some idx →
        ∃ frame_text preview,
          0 ≤ idx
          ∧ frames !! Z.to_nat idx = Some frame_text
          ∧ first_lines (Z.max 1 (lines_per_capture args)) frame_text preview
          ∧ (∀ other,
               first_lines (Z.max 1 (lines_per_capture args)) frame_text other →
               other = preview)
          ∧ lines !! (9 + 7 * j + 3)%nat = Some (lit "```text")
          ∧ lines !! (9 + 7 * j + 4)%nat = Some preview
          ∧ lines !! (9 + 7 * j + 5)%nat = Some (lit "```").
Proof.
  intros H. apply main_inv in H
    as (text & indices & entries & Ht & Hp & _ & _ & _ & Hr & Hlen & He & _).
  exists text, indices, (report_lines (isoformat (clock w))
    (resolve (input_file args)) (select_frames (OS.universal_newlines text))
    entries).
  cbn zeta. split_and!; try done.
  - unfold report_lines. rewrite length_app, length_entry_blocks, Hlen.
    cbn [length]. lia.
  - intros j idx Hj. destruct (He j idx Hj) as (frame_text & Hi & Hg & _ & Hej).
    exists frame_text, (preview_of (lines_per_capture args) frame_text).
    split_and!; try done.
    + apply preview_first_lines.
    + intros other Ho. eapply first_lines_unique; [done|].
      apply preview_first_lines.
    + by rewrite (lookup_report_lines _ _ _ _ _ _ _ Hej) by lia.
    + by rewrite (lookup_report_lines _ _ _ _ _ _ _ Hej) by lia.
    + by rewrite (lookup_report_lines _ _ _ _ _ _ _ Hej) by lia.
Qed.

Lemma report_previews_witness :
  ∃ (w' : World) (lines : list (list N)),
    main root_resolve two_line_args (one_file_world (lit "in.txt") three_frames)
    = (Ok 0, w')
    ∧ files w' !! [lit "out"; lit "ui-report-20261104T010203Z.md"]
      = Some (join [LF] lines)
    ∧ lines !! 20%nat = Some (lit "BBB" ++ [LF] ++ lit "bb2").
Proof.
  destruct (main_ok root_resolve two_line_args
              (one_file_world (lit "in.txt") three_frames)) as [w' Hmain].
  { apply sample_world_can_report. by vm_compute. }
  destruct (report_previews _ _ _ _ _ Hmain)
    as (text & indices & lines & Ht & Hp & (q & _ & Hr & Hq) & _ & He).
  exists w', lines. split; [done|].
  assert (text = three_frames) as -> by (vm_compute in Ht; by injection Ht).
  assert (indices = [0; 1; 2]) as ->
    by (vm_compute in Hp; by injection Hp).
  rewrite Hq in Hr by by_compute. split; [exact Hr|].
  destruct (He 1%nat 1 eq_refl) as (frame_text & preview & _ & Hf & _ & Hu & _ & H4 & _).
  assert (frame_text = lit "BBB" ++ [LF] ++ lit "bb2" ++ [LF] ++ lit "bb3") as ->
    by (vm_compute in Hf; by injection Hf).
  change 20%nat with (9 + 7 * 1 + 4)%nat. rewrite H4. f_equal. symmetry. apply Hu.
  eexists. split; [apply splitlines_lines|]. by vm_compute.
Defined.

Lemma nonblank_strip (f : str) : nonblank f = true ↔ strip isspace f ≠ [].
Proof. unfold nonblank. by destruct (strip isspace f). Qed.

Lemma lookup_total_frames (generated_at : str) (input_path : list (list N))
    (frames : list (list N)) (entries : list capture_entry) :
  report_lines generated_at input_path frames entries !! 4%nat
  = Some (lit "- Total frames detected: `"
          ++ format_d 0 (Z.of_nat (length frames)) ++ lit "`").
Proof. reflexivity. Qed.

(** ** Blank frames *)

Section Blank.

Lemma blank_strip (f : str) : blank f ↔ strip isspace f = [].
Proof.
  split; [apply strip_all|]. intros E.
  destruct (strip_decompose isspace f) as (pre & post & Hs & Hpre & Hpost).
  rewrite E in Hs. rewrite Hs. by apply Forall_app.
Qed.

Lemma blank_nonblank (f : str) : blank f ↔ nonblank f = false.
Proof.
  rewrite blank_strip. unfold nonblank. by destruct (strip isspace f).
Qed.

Lemma filter_drops_blank (l : list (list N)) :
  drops_blank l (filter (λ f, nonblank f = true) l).
Proof.
  induction l as [|f l IH]; [constructor|]. destruct (nonblank f) eqn:E.
  - rewrite filter_cons_True by done. apply drops_blank_keep; [|done].
    rewrite blank_nonblank. congruence.
  - rewrite filter_cons_False by congruence.
    apply drops_blank_skip; [by apply blank_nonblank|done].
Qed.

Lemma drops_blank_unique (l k1 k2 : list (list N)) :
  drops_blank l k1 → drops_blank l k2 → k1 = k2.
Proof.
  intros H1. revert k2.
  induction H1 as [|f l k1 Hf _ IH|f l k1 Hf _ IH]; intros k2 H2;
    inversion H2; subst; try done; [by apply IH|f_equal; by apply IH].
Qed.

End Blank.

(** C5: the blank filter takes out the frames that hold whitespace
    only, and nothing else, so what is left keeps its order and its
    repetitions; when nothing is left the frame list is one frame, the
    notice; so the list [main] hands to [pick_indices] is never empty,
    and the report of a run that returns gives its length; for an empty
    input file that is 1, and such a run does return in a world in which
    the report can be written. *)
Theorem placeholder_frame (resolve : list N → list (list N))
    (args : Namespace) (w : World) (raw : str) :
  drops_blank (split_frames raw) (kept_frames raw)
  ∧ (∀ kept, drops_blank (split_frames raw) kept → kept = kept_frames raw)
  ∧ sublist (kept_frames raw) (split_frames raw)
  ∧ (∀ f, f ∈ kept_frames raw ↔ f ∈ split_frames raw ∧ strip isspace f ≠ [])
  ∧ (kept_frames raw = [] →
     select_frames raw = [lit "(No non-empty terminal output captured)"])
  ∧ (kept_frames raw ≠ [] → select_frames raw = kept_frames raw)
  ∧ select_frames raw ≠ []
  ∧ (∀ w' status, main resolve args w = (Ok status, w') →
       ∃ text indices lines,
         let frames := select_frames (OS.universal_newlines text) in
         files w !! resolve (input_file args) = Some text
         ∧ frames ≠ []
         ∧ pick_indices (Z.of_nat (length frames)) (Z.max 1 (max_captures args))
           = Ok indices
         ∧ file_at w'
             (Path.joinpath (resolve (output_dir args))
                (report_name (prefix args) (strftime_compact (clock w))))
             (join [LF] lines)
         ∧ lines !! 4%nat
           = Some (lit "- Total frames detected: `"
                   ++ format_d 0 (Z.of_nat (length frames)) ++ lit "`")
         ∧ (text = [] →
            lines !! 4%nat = Some (lit "- Total frames detected: `1`")))
  ∧ (files w !! resolve (input_file args) = Some [] →
     can_report resolve args w →
     ∃ w', main resolve args w = (Ok 0, w')).
Proof.
  split_and!.
  - apply filter_drops_blank.
  - intros kept Hk. eapply drops_blank_unique; [done|]. apply filter_drops_blank.
  - apply sublist_filter.
  - intros f. unfold kept_frames. rewrite list_elem_of_filter, nonblank_strip.
    tauto.
  - unfold select_frames. by intros ->.
  - unfold select_frames. by destruct (kept_frames raw).
  - apply select_frames_nonempty.
  - intros w' status Hmain. destruct (main_inv _ _ _ _ _ Hmain)
      as (text & indices & entries & Ht & Hp & _ & _ & _ & Hr & _).
    exists text, indices, (report_lines (isoformat (clock w))
      (resolve (input_file args)) (select_frames (OS.universal_newlines text))
      entries).
    cbn zeta. split_and!; try done.
    + apply select_frames_nonempty.
    + by intros ->.
  - intros _ Hcan. by apply main_ok.
Qed.

Lemma placeholder_frame_witness :
  kept_frames (lit "A" ++ FRAME_SEPARATOR ++ lit " " ++ FRAME_SEPARATOR ++ lit "A")
  = [lit "A"; lit "A"]
  ∧ select_frames [] = [lit "(No non-empty terminal output captured)"]
  ∧ ∃ w' lines,
      main root_resolve (sample_args 5) (one_file_world (lit "in.txt") [])
      = (Ok 0, w')
      ∧ files w' !! [lit "out"; lit "ui-report-20261104T010203Z.md"]
        = Some (join [LF] lines)
      ∧ lines !! 4%nat = Some (lit "- Total frames detected: `1`").
Proof.
  split_and!.
  - destruct (placeholder_frame root_resolve (sample_args 5)
                (one_file_world (lit "in.txt") [])
                (lit "A" ++ FRAME_SEPARATOR ++ lit " " ++ FRAME_SEPARATOR ++ lit "A"))
      as (_ & Hu & _).
    symmetry. apply Hu.
    change (drops_blank [lit "A"; lit " "; lit "A"] [lit "A"; lit "A"]).
    apply drops_blank_keep; [by_compute|].
    apply drops_blank_skip; [by_compute|].
    apply drops_blank_keep; [by_compute|]. constructor.
  - destruct (placeholder_frame root_resolve (sample_args 5)
                (one_file_world (lit "in.txt") []) [])
      as (_ & _ & _ & _ & Hp & _).
    by apply Hp.
  - destruct (placeholder_frame root_resolve (sample_args 5)
                (one_file_world (lit "in.txt") []) [])
      as (_ & _ & _ & _ & _ & _ & _ & Hrun & Hok).
    destruct Hok as [w' Hmain]; [by vm_compute| |].
    { apply sample_world_can_report. by vm_compute. }
    destruct (Hrun _ _ Hmain)
      as (text & indices & lines & Ht & _ & _ & (q & _ & Hr & Hq) & _ & H1).
    exists w', lines. split; [done|].
    rewrite Hq in Hr by by_compute. split; [exact Hr|].
    apply H1. vm_compute in Ht. by injection Ht.
Defined.

(** ** Numerals in the names *)

Section PaddedDecimal.

Lemma digits_uint_inv (s : str) (d : Decimal.uint) :
  digits_uint s = Some d → uint_digits d = s.
Proof.
  revert d. induction s as [|c s IH]; intros d; cbn.
  - by intros [= <-].
  - destruct (digits_uint s) as [d'|]; cbn; [|done].
    specialize (IH d' eq_refl).
    intros H. repeat case_match; simplify_eq; cbn; f_equal;
      try lia; symmetry; by apply N.eqb_eq.
Qed.

Lemma uint_digits_nzhead (d : Decimal.uint) :
  ∃ k, uint_digits d = replicate k 48%N ++ uint_digits (Decimal.nzhead d).
Proof.
  induction d as [|d [k IH]|d _|d _|d _|d _|d _|d _|d _|d _|d _];
    try by exists 0%nat.
  exists (S k). cbn. by rewrite IH.
Qed.

Lemma uint_digits_unorm (d : Decimal.uint) :
  d ≠ Decimal.Nil →
  ∃ k, uint_digits d = replicate k 48%N ++ uint_digits (Decimal.unorm d).
Proof.
  intros Hd. destruct (uint_digits_nzhead d) as [k Hk]. unfold Decimal.unorm.
  destruct (Decimal.nzhead d) eqn:E; try by exists k.
  cbn in Hk. rewrite app_nil_r in Hk. destruct k as [|k].
  - destruct d; done.
  - exists k. rewrite Hk. cbn [uint_digits].
    change (48%N :: []) with (replicate 1 48%N).
    rewrite <- replicate_add. f_equal. lia.
Qed.

(** A numeral padded with zeros up to a width is the one [format]
    gives. *)
Lemma padded_decimal_unique (width : nat) (n : Z) (s : str) :
  (0 < width)%nat → padded_decimal width n s → s = format_d width n.
Proof.
  intros Hw (Hv & Hlen & Hhead). unfold decimal_value in Hv.
  destruct (digits_uint s) as [d|] eqn:Hd; [|done]. cbn in Hv.
  injection Hv as <-. apply digits_uint_inv in Hd. subst s.
  rewrite format_d_nonneg by lia.
  rewrite N2Z.id, DecimalN.Unsigned.to_of.
  destruct (uint_digits_unorm d) as [k Hk].
  { intros ->. cbn in Hlen. lia. }
  rewrite Hk in *. f_equal. rewrite length_app, length_replicate in *.
  destruct k as [|k].
  - cbn. replace (width - _)%nat with 0%nat by lia. done.
  - replace (width - _)%nat with (S k); [done|].
    destruct (decide (width < S k + length (uint_digits (Decimal.unorm d)))%nat)
      as [Hlt|]; [|lia].
    by apply Hhead in Hlt.
Qed.

End PaddedDecimal.

(** C6 (as amended): after a run that returns, every selected index,
    taken in ascending order and numbered from 1, has its capture file:
    the text of the frame at that index and one newline, under
    prefix-timestamp-capture-NN-frame-FFFF.txt in the output directory,
    NN being the capture number and FFFF the frame index in decimal,
    padded with zeros to at least 2 and at least 4 digits. *)
Theorem captures_written (resolve : list N → list (list N))
    (args : Namespace) (w w' : World) (status : Z) :
  main resolve args w = (Ok status, w') →
  capture_claim padded_decimal resolve args w w'.
Proof.
  intros H. apply main_inv in H
    as (text & indices & entries & Ht & Hp & _ & _ & _ & _ & _ & He & _).
  destruct (pick_indices_sorted _ _ _ Hp) as [Hs Hnn].
  exists text, indices. cbn zeta. split_and!; try done.
  intros j idx Hj. destruct (He j idx Hj) as (frame_text & Hi & Hg & Hf & _).
  exists frame_text, (format_d 2 (1 + Z.of_nat j)), (format_d 4 idx).
  split_and!; try done.
  - apply format_d_padded; lia.
  - apply format_d_padded; [done|lia].
Qed.

Lemma captures_written_witness :
  ∃ w' : World,
    main root_resolve (sample_args 5)
      (one_file_world (lit "in.txt") three_frames) = (Ok 0, w')
    ∧ files w' !! [lit "out";
                   lit "ui-report-20261104T010203Z-capture-02-frame-0001.txt"]
      = Some (lit "BBB" ++ [LF] ++ lit "bb2" ++ [LF] ++ lit "bb3" ++ [LF]).
Proof.
  destruct (main_ok root_resolve (sample_args 5)
              (one_file_world (lit "in.txt") three_frames)) as [w' Hmain].
  { apply sample_world_can_report. by vm_compute. }
  exists w'. split; [done|].
  destruct (captures_written _ _ _ _ _ Hmain)
    as (text & indices & Ht & Hp & _ & H).
  assert (text = three_frames) as -> by (vm_compute in Ht; by injection Ht).
  assert (indices = [0; 1; 2]) as -> by (vm_compute in Hp; by injection Hp).
  destruct (H 1%nat 1 eq_refl)
    as (frame_text & NN & FFFF & _ & Hf & HN & HF & q & _ & Hfile & Hq).
  assert (frame_text = lit "BBB" ++ [LF] ++ lit "bb2" ++ [LF] ++ lit "bb3") as ->
    by (vm_compute in Hf; by injection Hf).
  apply padded_decimal_unique in HN as ->; [|lia].
  apply padded_decimal_unique in HF as ->; [|lia].
  rewrite Hq in Hfile by by_compute. exact Hfile.
Defined.

(** A string of digits stands for a numeral with as many digits. *)
Lemma digits_uint_length (s : str) (d : Decimal.uint) :
  digits_uint s = Some d → Decimal.nb_digits d = length s.
Proof.
  revert d. induction s as [|c s IH]; intros d; cbn.
  - by intros [= <-].
  - destruct (digits_uint s) as [d'|]; cbn; [|done].
    specialize (IH d' eq_refl).
    intros H. repeat case_match; simplify_eq; cbn; by rewrite IH.
Qed.

(** Two digits stand for a number below 100. *)
Lemma two_digits_bound (s : str) (v : Z) :
  decimal_value s = Some v → length s = 2%nat → v ≤ 99.
Proof.
  unfold decimal_value. destruct (digits_uint s) as [d|] eqn:Hd; cbn; [|done].
  intros [= <-] Hlen. apply digits_uint_length in Hd. rewrite Hlen in Hd.
  destruct d as [|d|d|d|d|d|d|d|d|d|d]; cbn in Hd; try done;
    injection Hd as Hd;
    destruct d as [|d|d|d|d|d|d|d|d|d|d]; cbn in Hd; try done;
    injection Hd as Hd; apply DecimalFacts.nb_digits_0 in Hd; subst d;
    by vm_compute.
Qed.

(** C6 (as stated) fails for the hundredth capture: its number does not
    fit in two digits. *)
Lemma hundredth_capture_three_digits :
  ∃ w', main root_resolve (sample_args 100)
          (one_file_world (lit "in.txt") hundred_frames) = (Ok 0, w')
        ∧ ¬ capture_claim fixed_width_decimal root_resolve (sample_args 100)
              (one_file_world (lit "in.txt") hundred_frames) w'.
Proof.
  destruct (main_ok root_resolve (sample_args 100)
              (one_file_world (lit "in.txt") hundred_frames)) as [w' Hmain].
  { apply sample_world_can_report. by vm_compute. }
  exists w'. split; [done|].
  intros (text & indices & Ht & Hp & _ & H).
  assert (text = hundred_frames) as -> by (vm_compute in Ht; by injection Ht).
  cbn zeta in *.
  assert (indices !! 99%nat = Some 99) as H99.
  { vm_compute in Hp. injection Hp as <-. reflexivity. }
  destruct (H 99%nat 99 H99) as (_ & NN & _ & _ & _ & [Hv Hl] & _).
  apply two_digits_bound in Hv; [|done]. lia.
Qed.

Example hundredth_capture_name :
  format_d 2 100 = lit "100" ∧ format_d 4 12345 = lit "12345".
Proof. by vm_compute. Qed.

(** * Further properties of the script *)

(** X1: [split_frames] strips the pieces of the text; the pieces joined
    by the separator are the text again, and no piece holds the
    separator. *)
Theorem split_frames_pieces (raw : str) :
  split_frames raw = strip is_newline <$> raw_pieces raw
  ∧ join FRAME_SEPARATOR (raw_pieces raw) = raw
  ∧ Forall (λ piece, occurrences FRAME_SEPARATOR piece = 0%nat)
           (raw_pieces raw).
Proof.
  unfold split_frames, raw_pieces. destruct (contains _ _) eqn:E.
  - split; [done|]. by apply join_split_fuel.
  - split; [done|]. split; [done|].
    constructor; [|done]. by apply no_marker_no_separator.
Qed.

(** X2: whenever [pick_indices] returns, for any two integers, the
    indices go up strictly and none is negative. *)
Theorem pick_indices_increasing (total max_captures : Z) (l : list Z) :
  pick_indices total max_captures = Ok l →
  StronglySorted Z.lt l ∧ Forall (λ i, 0 ≤ i) l.
Proof. apply pick_indices_sorted. Qed.

Lemma pick_indices_increasing_witness :
  StronglySorted Z.lt [0; 10; 19] ∧ Forall (λ i, 0 ≤ i) [0; 10; 19].
Proof. apply (pick_indices_increasing 20 3). by vm_compute. Defined.

(** X3: for a list of 1 to [2^53] frames and any [max_captures],
    [pick_indices] returns at least one and at most
    [max(1, max_captures)] indices, and [frames[i]] is defined for each
    of them. *)
Theorem picked_frames_exist (frames : list (list N)) (max_captures : Z) :
  frames ≠ [] → Z.of_nat (length frames) ≤ 2 ^ 53 →
  ∃ l, pick_indices (Z.of_nat (length frames)) max_captures = Ok l
       ∧ Forall (λ i, ∃ f, getitem frames i = Ok f) l
       ∧ (1 ≤ Z.of_nat (length l) ≤ Z.max 1 max_captures).
Proof.
  intros Hne Hbig.
  assert (0 < Z.of_nat (length frames)) as Hpos by (destruct frames; [done|cbn; lia]).
  destruct (pick_indices_in_range _ max_captures Hpos Hbig) as (l & Hl & Hr & Hlen).
  exists l. split; [done|]. split; [|done].
  eapply Forall_impl; [exact Hr|]. intros i Hi. by apply getitem_ok.
Qed.

Lemma picked_frames_exist_witness :
  ∃ l, pick_indices 3 2 = Ok l
       ∧ Forall (λ i, ∃ f, getitem [lit "A"; lit "B"; lit "C"] i = Ok f) l
       ∧ (1 ≤ Z.of_nat (length l) ≤ Z.max 1 2).
Proof.
  apply (picked_frames_exist [lit "A"; lit "B"; lit "C"] 2); [done|].
  by vm_compute.
Defined.

(** X4: with [lines_per_capture] at most 1 the preview is the first
    line of the frame (the empty string for a frame without lines). *)
Theorem preview_clamped (lines_per_capture : Z) (frame_text : str) :
  lines_per_capture ≤ 1 →
  preview_of lines_per_capture frame_text
  = default [] (head (splitlines frame_text)).
Proof.
  intros H. unfold preview_of. rewrite Z.max_l by done.
  change (Z.to_nat 1) with 1%nat. by destruct (splitlines frame_text).
Qed.

Lemma preview_clamped_witness :
  preview_of (-3) (lit "top" ++ [LF] ++ lit "rest") = lit "top".
Proof. rewrite preview_clamped by lia. by vm_compute. Defined.

(** X5: every frame [main] works on has visible content and no newline
    at either end. *)
Theorem selected_frames_visible (raw f : str) :
  f ∈ select_frames raw → nonblank f = true ∧ newline_stripped f.
Proof.
  intros Hin. split.
  - unfold select_frames in Hin. destruct (kept_frames raw) as [|g l] eqn:E.
    + apply list_elem_of_singleton in Hin as ->. by vm_compute.
    + rewrite <- E in Hin. unfold kept_frames in Hin.
      by apply list_elem_of_filter in Hin as [? _].
  - pose proof (select_frames_stripped raw) as H.
    rewrite Forall_forall in H. by apply H.
Qed.

Lemma selected_frames_visible_witness :
  nonblank (lit " B") = true ∧ newline_stripped (lit " B").
Proof.
  apply (selected_frames_visible (lit "A" ++ FRAME_SEPARATOR ++ lit " B" ++ [LF])).
  by_compute.
Defined.

Lemma contains_head (c : N) (sub s : str) :
  contains (c :: sub) s = true → c ∈ s.
Proof.
  induction s as [|d s IH]; cbn; [done|].
  intros [H|H]%orb_true_iff.
  - apply andb_true_iff in H as [->%N.eqb_eq _]. left.
  - right. by apply IH.
Qed.

(** X6: an input made of whitespace only (the empty input included)
    gives the placeholder as its single frame. *)
Theorem blank_input_placeholder (raw : str) :
  Forall (λ c, isspace c = true) raw → select_frames raw = [PLACEHOLDER].
Proof.
  intros Hraw.
  assert (contains FRAME_MARKER raw = false) as Hm.
  { destruct (contains FRAME_MARKER raw) eqn:E; [|done].
    apply (contains_head 45%N (tail FRAME_MARKER)) in E.
    rewrite Forall_forall in Hraw. by apply Hraw in E. }
  unfold select_frames, kept_frames, split_frames. rewrite Hm.
  destruct (strip_decompose is_newline raw) as (pre & post & Hs & _ & _).
  rewrite Hs in Hraw. apply Forall_app in Hraw as [_ Hraw].
  apply Forall_app in Hraw as [Hraw _].
  rewrite filter_cons_False; [done|].
  unfold nonblank. by rewrite strip_all.
Qed.

Lemma blank_input_placeholder_witness :
  select_frames (lit "  " ++ [LF; 9%N] ++ [LF]) = [PLACEHOLDER].
Proof. apply blank_input_placeholder. by_compute. Defined.

(** X7: in one run no two captures share a path, and no capture has the
    path of the report, whatever the prefix and the output directory. *)
Theorem output_paths_distinct (args : Namespace) (out : list (list N))
    (now : datetime) (no1 no2 idx1 idx2 : Z) :
  0 ≤ no1 → 0 ≤ no2 → no1 ≠ no2 →
  capture_path args out (strftime_compact now) no1 idx1
  ≠ capture_path args out (strftime_compact now) no2 idx2
  ∧ Path.joinpath out (report_name (prefix args) (strftime_compact now))
    ≠ capture_path args out (strftime_compact now) no1 idx1.
Proof.
  intros H1 H2 Hne. split.
  - intros E. apply capture_path_inj in E; [done|apply strftime_slash_free|done..].
  - apply report_path_fresh, strftime_slash_free.
Qed.

Lemma output_paths_distinct_witness :
  capture_path (sample_args 5) [lit "out"]
    (strftime_compact (mkDatetime 2026 11 4 1 2 3 0)) 1 0
  ≠ capture_path (sample_args 5) [lit "out"]
      (strftime_compact (mkDatetime 2026 11 4 1 2 3 0)) 2 0.
Proof.
  apply (output_paths_distinct (sample_args 5) [lit "out"]
           (mkDatetime 2026 11 4 1 2 3 0) 1 2 0 0); lia.
Defined.

(** X8: a run of [main] that returns has returned 0, has printed one
    line, the path of the report, and has left a file at the place that
    path leads to, which is the path itself when it holds no [".."]. *)
Theorem main_prints_report_path (resolve : list N → list (list N))
    (args : Namespace) (w w' : World) (status : Z) :
  main resolve args w = (Ok status, w') →
  let report_path :=
    Path.joinpath (resolve (output_dir args))
      (report_name (prefix args) (strftime_compact (clock w))) in
  status = 0
  ∧ stdout w' = stdout w ++ [Path.to_str report_path]
  ∧ ∃ q, OS.locate report_path w' = Ok q
         ∧ is_Some (files w' !! q)
         ∧ (Path.DOTDOT ∉ report_path → q = report_path).
Proof.
  intros H. apply main_inv in H
    as (text & indices & entries & _ & _ & Hs & Ho & _ & (q & Hq & Hr & Hp) & _).
  cbn zeta in *. split_and!; [done|done|].
  exists q. split_and!; [done| |done]. by rewrite Hr.
Qed.

Lemma main_prints_report_path_witness :
  ∃ w', main root_resolve (sample_args 5)
          (one_file_world (lit "in.txt") (lit "hello")) = (Ok 0, w')
        ∧ stdout w' = [lit "/out/ui-report-20261104T010203Z.md"]
        ∧ is_Some (files w' !! [lit "out"; lit "ui-report-20261104T010203Z.md"]).
Proof.
  destruct (main_ok root_resolve (sample_args 5)
              (one_file_world (lit "in.txt") (lit "hello"))) as [w' Hmain].
  { apply sample_world_can_report. by vm_compute. }
  exists w'. split; [done|].
  destruct (main_prints_report_path _ _ _ _ _ Hmain) as (_ & -> & q & _ & Hf & Hq).
  split; [by vm_compute|]. rewrite Hq in Hf by by_compute. exact Hf.
Defined.

(** X9: the report of a run that returns gives the input path, the
    number of frames and the number of captures in its head, and for
    every capture a heading with the frame index and the path of a file
    that holds the frame at that index and a newline. *)
Theorem report_names_captures (resolve : list N → list (list N))
    (args : Namespace) (w w' : World) (status : Z) :
  main resolve args w = (Ok status, w') →
  ∃ text indices lines,
    let frames := select_frames (OS.universal_newlines text) in
    let timestamp := strftime_compact (clock w) in
    let out := resolve (output_dir args) in
    files w !! resolve (input_file args) = Some text
    ∧ pick_indices (Z.of_nat (length frames)) (Z.max 1 (max_captures args))
      = Ok indices
    ∧ file_at w' (Path.joinpath out (report_name (prefix args) timestamp))
        (join [LF] lines)
    ∧ lines !! 3%nat
      = Some (lit "- Source input: `"
              ++ Path.to_str (resolve (input_file args)) ++ lit "`")
    ∧ lines !! 4%nat
      = Some (lit "- Total frames detected: `"
              ++ format_d 0 (Z.of_nat (length frames)) ++ lit "`")
    ∧ lines !! 5%nat
      = Some (lit "- Captures included: `"
              ++ format_d 0 (Z.of_nat (length indices)) ++ lit "`")
    ∧ ∀ j idx, indices !! j = Some idx →
        ∃ frame_text,
          0 ≤ idx
          ∧ frames !! Z.to_nat idx = Some frame_text
          ∧ lines !! (9 + 7 * j)%nat
            = Some (lit "### Frame " ++ format_d 0 idx)
          ∧ lines !! (9 + 7 * j + 1)%nat
            = Some (lit "- Capture file: `"
                    ++ Path.to_str (capture_path args out timestamp
                                      (1 + Z.of_nat j) idx)
                    ++ lit "`")
          ∧ file_at w' (capture_path args out timestamp (1 + Z.of_nat j) idx)
              (frame_text ++ [LF]).
Proof.
  intros H. apply main_inv in H
    as (text & indices & entries & Ht & Hp & _ & _ & _ & Hr & Hlen & He & _).
  exists text, indices, (report_lines (isoformat (clock w))
    (resolve (input_file args)) (select_frames (OS.universal_newlines text))
    entries).
  cbn zeta. split_and!; try done.
  - by rewrite <- Hlen.
  - intros j idx Hj. destruct (He j idx Hj) as (frame_text & Hi & Hg & Hf & Hej).
    exists frame_text. split_and!; try done.
    + pose proof (lookup_report_lines (isoformat (clock w))
                    (resolve (input_file args))
                    (select_frames (OS.universal_newlines text))
                    entries j 0 _ Hej ltac:(lia)) as H0.
      rewrite Nat.add_0_r in H0. by rewrite H0.
    + by rewrite (lookup_report_lines _ _ _ _ _ _ _ Hej) by lia.
Qed.

Lemma report_names_captures_witness :
  ∃ (w' : World) (lines : list (list N)),
    main root_resolve (sample_args 5)
      (one_file_world (lit "in.txt") three_frames) = (Ok 0, w')
    ∧ files w' !! [lit "out"; lit "ui-report-20261104T010203Z.md"]
      = Some (join [LF] lines)
    ∧ lines !! 3%nat = Some (lit "- Source input: `/in.txt`")
    ∧ lines !! 4%nat = Some (lit "- Total frames detected: `3`")
    ∧ lines !! 5%nat = Some (lit "- Captures included: `3`")
    ∧ lines !! 23%nat = Some (lit "### Frame 2")
    ∧ lines !! 24%nat
      = Some (lit "- Capture file: `/out/ui-report-20261104T010203Z-capture-03-frame-0002.txt`")
    ∧ files w' !! [lit "out";
                   lit "ui-report-20261104T010203Z-capture-03-frame-0002.txt"]
      = Some (lit "CCC" ++ [LF]).
Proof.
  destruct (main_ok root_resolve (sample_args 5)
              (one_file_world (lit "in.txt") three_frames)) as [w' Hmain].
  { apply sample_world_can_report. by vm_compute. }
  destruct (report_names_captures _ _ _ _ _ Hmain)
    as (text & indices & lines & Ht & Hp & (q & _ & Hr & Hq) & H3 & H4 & H5 & He).
  exists w', lines. split; [done|].
  assert (text = three_frames) as -> by (vm_compute in Ht; by injection Ht).
  assert (indices = [0; 1; 2]) as -> by (vm_compute in Hp; by injection Hp).
  rewrite Hq in Hr by by_compute.
  destruct (He 2%nat 2 eq_refl)
    as (frame_text & _ & Hf & Hh & Hc & (q' & _ & Hfile & Hq')).
  assert (frame_text = lit "CCC") as -> by (vm_compute in Hf; by injection Hf).
  rewrite Hq' in Hfile by by_compute.
  split_and!.
  - exact Hr.
  - rewrite H3. by vm_compute.
  - rewrite H4. by vm_compute.
  - rewrite H5. by vm_compute.
  - change 23%nat with (9 + 7 * 2)%nat. rewrite Hh. by vm_compute.
  - change 24%nat with (9 + 7 * 2 + 1)%nat. rewrite Hc. by vm_compute.
  - exact Hfile.
Defined.

(** X10: with [max_captures] at most 1 (zero and negative values
    included) a run that returns has selected frame 0 alone and has
    written the first frame as capture 1. *)
Theorem single_capture (resolve : list N → list (list N))
    (args : Namespace) (w w' : World) (status : Z) :
  main resolve args w = (Ok status, w') → max_captures args ≤ 1 →
  ∃ text first,
    let frames := select_frames (OS.universal_newlines text) in
    files w !! resolve (input_file args) = Some text
    ∧ head frames = Some first
    ∧ pick_indices (Z.of_nat (length frames)) (Z.max 1 (max_captures args))
      = Ok [0]
    ∧ file_at w'
        (capture_path args (resolve (output_dir args))
           (strftime_compact (clock w)) 1 0)
        (first ++ [LF]).
Proof.
  intros H Hmax. apply main_inv in H
    as (text & indices & entries & Ht & Hp & _ & _ & _ & _ & _ & He & _).
  cbn zeta in *.
  set (frames := select_frames (OS.universal_newlines text)) in *.
  assert (frames ≠ []) as Hne by apply select_frames_nonempty.
  assert (indices = [0]) as ->.
  { rewrite pick_indices_one in Hp; [by injection Hp| |lia].
    destruct frames; [done|cbn; lia]. }
  destruct (He 0%nat 0 eq_refl) as (first & _ & Hg & Hf & _).
  exists text, first. split_and!; try done. by rewrite head_lookup.
Qed.

Lemma single_capture_witness :
  ∃ w' : World,
    main root_resolve (sample_args 0)
      (one_file_world (lit "in.txt") three_frames) = (Ok 0, w')
    ∧ files w' !! [lit "out";
                   lit "ui-report-20261104T010203Z-capture-01-frame-0000.txt"]
      = Some (lit "AAA" ++ [LF]).
Proof.
  destruct (main_ok root_resolve (sample_args 0)
              (one_file_world (lit "in.txt") three_frames)) as [w' Hmain].
  { apply sample_world_can_report. by vm_compute. }
  exists w'. split; [done|].
  destruct (single_capture _ _ _ _ _ Hmain)
    as (text & first & Ht & Hh & _ & (q & _ & Hf & Hq)).
  { cbn. lia. }
  assert (text = three_frames) as -> by (vm_compute in Ht; by injection Ht).
  assert (first = lit "AAA") as -> by (vm_compute in Hh; by injection Hh).
  rewrite Hq in Hf by by_compute. exact Hf.
Defined.

(** X11: a run of [main] that returns has changed no file other than
    those at the places its report path and its capture paths lead to,
    has made no directory other than the output directory and those
    that lead to it, and has written nothing to the error stream. *)
Theorem main_touches_outputs_only (resolve : list N → list (list N))
    (args : Namespace) (w w' : World) (status : Z) :
  main resolve args w = (Ok status, w') →
  ∃ text indices,
    let frames := select_frames (OS.universal_newlines text) in
    let timestamp := strftime_compact (clock w) in
    let out := resolve (output_dir args) in
    files w !! resolve (input_file args) = Some text
    ∧ pick_indices (Z.of_nat (length frames)) (Z.max 1 (max_captures args))
      = Ok indices
    ∧ stderr w' = stderr w
    ∧ (∀ p,
         OS.locate (Path.joinpath out (report_name (prefix args) timestamp)) w'
         ≠ Ok p →
         (∀ j idx, indices !! j = Some idx →
            OS.locate (capture_path args out timestamp (1 + Z.of_nat j) idx) w'
            ≠ Ok p) →
         files w' !! p = files w !! p)
    ∧ (∀ p, p ∈ dirs w' → p ∈ dirs w ∨ ∃ k, p = take k out).
Proof.
  intros H. apply main_inv in H
    as (text & indices & entries & Ht & Hp & _ & _ & He & _ & _ & _ & Hf & Hd).
  by exists text, indices.
Qed.

Lemma main_touches_outputs_only_witness :
  ∃ w', main root_resolve up_args
          (one_file_world (lit "in.txt") (lit "hello")) = (Ok 0, w')
        ∧ stdout w' = [lit "/out/../x-20261104T010203Z.md"]
        ∧ files w' !! [lit "in.txt"] = Some (lit "hello")
        ∧ files w' !! [lit "out"; lit "x-20261104T010203Z.md"] = None.
Proof.
  destruct (main root_resolve up_args
              (one_file_world (lit "in.txt") (lit "hello"))) as [r w'] eqn:E.
  assert (r = Ok 0) as ->.
  { apply (f_equal fst) in E. cbn [fst] in E. rewrite <- E. by vm_compute. }
  assert (w' = (main root_resolve up_args
                  (one_file_world (lit "in.txt") (lit "hello"))).2) as Ew
    by (by rewrite E).
  exists w'. split; [done|].
  assert (stdout w' = [lit "/out/../x-20261104T010203Z.md"]) as Hout
    by (rewrite Ew; by vm_compute).
  destruct (main_touches_outputs_only _ _ _ _ _ E)
    as (text & indices & Ht & Hp & _ & Hframe & _).
  assert (text = lit "hello") as -> by (vm_compute in Ht; by injection Ht).
  assert (indices = [0]) as -> by (vm_compute in Hp; by injection Hp).
  cbn zeta in Hframe. split; [exact Hout|].
  assert (∀ p, p = [lit "in.txt"] ∨ p = [lit "out"; lit "x-20261104T010203Z.md"] →
            files w' !! p
            = files (one_file_world (lit "in.txt") (lit "hello")) !! p) as Hsame.
  { intros p Hp'. apply Hframe.
    - rewrite Ew. intros Hl. vm_compute in Hl.
      injection Hl as <-. by destruct Hp'.
    - intros [|j] idx Hj; [|done]. injection Hj as <-.
      rewrite Ew. intros Hl. vm_compute in Hl.
      injection Hl as <-. by destruct Hp'. }
  split; rewrite Hsame by auto; by vm_compute.
Defined.

(** X12: when the input path is a directory and nothing on the way to
    the output directory is a file, [main] raises [IsADirectoryError],
    but only after it has made the output directory; no file is
    written and nothing is printed. *)
Theorem directory_input_fails_late (resolve : list N → list (list N))
    (args : Namespace) (w : World) :
  is_dir w (resolve (input_file args)) = true →
  (∀ k, is_file w (take k (resolve (output_dir args))) = false) →
  ∃ w', main resolve args w = (Raise IsADirectoryError, w')
        ∧ is_dir w' (resolve (output_dir args)) = true
        ∧ files w' = files w ∧ stdout w' = stdout w.
Proof.
  intros Hin Hway. unfold main.
  erewrite bind_ok; [|by unfold OS.path_exists].
  rewrite Hin, orb_true_r. cbn [negb].
  destruct (mkdir_from_ok (resolve (output_dir args)) [] w) as (w1 & Hmk & Hout).
  { intros k _. apply Hway. }
  { done. }
  cbn [app] in Hout.
  pose proof (mkdir_from_frame _ _ _ _ _ Hmk) as (Hf1 & _ & Ho1 & _ & _).
  erewrite bind_ok; [|exact Hmk].
  erewrite bind_ok; [|by unfold OS.datetime_now].
  exists w1. split; [|done].
  apply bind_raise. unfold OS.read_text.
  replace (is_dir w1 (resolve (input_file args))) with true; [done|].
  symmetry. unfold is_dir in *. apply bool_decide_eq_true.
  apply bool_decide_eq_true in Hin as [?|Hin]; [by left|right].
  by eapply mkdir_from_mono.
Qed.

Lemma directory_input_fails_late_witness :
  ∃ w', main root_resolve
          (mkNamespace (lit "logs") (lit "out") (lit "ui-report") 5 40)
          (mkWorld ∅ {[ [lit "logs"] ]} (mkDatetime 2026 11 4 1 2 3 0) [] [])
        = (Raise IsADirectoryError, w')
        ∧ is_dir w' (root_resolve (lit "out")) = true.
Proof.
  destruct (directory_input_fails_late root_resolve
              (mkNamespace (lit "logs") (lit "out") (lit "ui-report") 5 40)
              (mkWorld ∅ {[ [lit "logs"] ]} (mkDatetime 2026 11 4 1 2 3 0) [] []))
    as (w' & Hm & Hd & _).
  - by vm_compute.
  - intros k. by vm_compute.
  - by exists w'.
Defined.
